(** * REINFORCE function optimisation (Williams & Peng 1991): the notebook
    [REINFORCE.ipynb], embedded shallowly.

    - Python integers are [Z]; bit vectors are [list Z] (entries 0 or 1).
    - The Plateaus objective mixes integers with the literal [2.5]; its
      arithmetic is carried out in [Q] (exact rationals).
    - The logistic function and the optimiser's weights, probabilities and
      rewards are reals ([R]); rounding of float64 is not modelled there.
      [Float64.sigmoid64] is the logistic function on float64 itself.
    - Exceptions are the left summand of [result]. *)

From Stdlib Require Import ZArith QArith Qround Reals Lra Lia List String.
From Stdlib Require PrimFloat.
From stdpp Require Import base list.

Set Default Proof Using "Type".

(** ** Exceptions *)

Inductive exn : Type :=
  | AssertionError (msg : string)
  | IndexError.

Definition result (A : Type) : Type := (exn + A)%type.

Definition ret {A} (a : A) : result A := inr a.

Definition bind {A B} (m : result A) (f : A -> result B) : result B :=
  match m with
  | inl e => inl e
  | inr a => f a
  end.

Notation "x <- m ;; k" := (bind m (fun x => k))
  (at level 100, m at next level, right associativity).

(** [assert c, msg] *)
Definition assert (c : bool) (msg : string) : result unit :=
  if c then ret tt else inl (AssertionError msg).

(** [for x in xs: s = body(s, x)], stopping at the first exception. *)
Fixpoint for_each {S A} (body : S -> A -> result S) (xs : list A) (s : S)
  : result S :=
  match xs with
  | [] => ret s
  | x :: xs' => s' <- body s x ;; for_each body xs' s'
  end.

(** ** Python built-ins used by the objectives *)

Module Py.

(** [len(u)] *)
Definition len {A} (u : list A) : Z := Z.of_nat (length u).

(** [sum(u)] and [np.sum(u)]: left to right from 0. *)
Definition sum (u : list Z) : Z := fold_left Z.add u 0%Z.

(** [range(a, b)] *)
Definition range (a b : Z) : list Z :=
  map (fun i => (a + Z.of_nat i)%Z) (seq 0 (Z.to_nat (b - a))).

(** [int(q)]: truncation towards zero. *)
Definition int (q : Q) : Z := Z.quot (Qnum q) (Zpos (Qden q)).

(** [u[i]]: a negative index counts from the end; out of range raises. *)
Definition getitem {A} (u : list A) (i : Z) : result A :=
  let j := if (i <? 0)%Z then (i + len u)%Z else i in
  if (j <? 0)%Z then inl IndexError
  else match nth_error u (Z.to_nat j) with
       | Some x => ret x
       | None => inl IndexError
       end.

End Py.

(** ** The objective functions *)

(** [J = 10*np.sum(u)] *)
Definition one_max (u : list Z) : Z := (10 * Py.sum u)%Z.

(** [J = abs(18*sum(u)-8*len(u))] *)
Definition two_max (u : list Z) : Z :=
  Z.abs (18 * Py.sum u - 8 * Py.len u).

(** [n_1 = sum(u); n_0 = len(u) - n_1; J = 10*n_1 - 15*(n_0 % 2)] *)
Definition porcupine (u : list Z) : Z :=
  let n_1 := Py.sum u in
  let n_0 := (Py.len u - n_1)%Z in
  (10 * n_1 - 15 * (n_0 mod 2))%Z.

Section Plateaus.
Local Open Scope Q_scope.

(** The innermost statement [J_k = J_k * 2.5 * n * u[i]]. *)
Definition plateaus_inner (n : Z) (u : list Z) (J_k : Q) (i : Z) : result Q :=
  u_i <- Py.getitem u i ;;
  ret (J_k * 2.5 * inject_Z n * inject_Z u_i).

(** The index range of the inner loop,
    [range(int(k * n/4+1), int((k+1) * n/4))]. *)
Definition plateaus_range (n k : Z) : list Z :=
  Py.range (Py.int (inject_Z k * inject_Z n / 4 + 1))
           (Py.int ((inject_Z k + 1) * inject_Z n / 4)).

(** One turn of the outer loop on the pair [(J, J_k)]:
    the inner loop, then [J = J + J_k]. *)
Definition plateaus_outer (n : Z) (u : list Z) (st : Q * Q) (k : Z)
  : result (Q * Q) :=
  let '(J, J_k) := st in
  J_k' <- for_each (plateaus_inner n u) (plateaus_range n k) J_k ;;
  ret (J + J_k', J_k').

(** [plateaus(u)]: [J = 0] and [J_k = 1] are set once, before the
    assertion and both loops. *)
Definition plateaus (u : list Z) : result Q :=
  let J := 0 in
  let J_k := 1 in
  let n := Py.len u in
  _ <- assert (n mod 4 =? 0)%Z "n must be a multiple of 4." ;;
  st <- for_each (plateaus_outer n u) (Py.range 0 4) (J, J_k) ;;
  ret (fst st).

(** The objective as the specification words it, for comparison with
    [plateaus]: the running product is seeded at 1 for each quartile. *)
Definition plateaus_reseeded_outer (n : Z) (u : list Z) (J : Q) (k : Z)
  : result Q :=
  J_k <- for_each (plateaus_inner n u) (plateaus_range n k) 1 ;;
  ret (J + J_k).

Definition plateaus_reseeded (u : list Z) : result Q :=
  let n := Py.len u in
  _ <- assert (n mod 4 =? 0)%Z "n must be a multiple of 4." ;;
  for_each (plateaus_reseeded_outer n u) (Py.range 0 4) 0.

End Plateaus.


(** ** The logistic unit *)

(** [s = 1/(1+np.exp(-x))] *)
Definition sigmoid (x : R) : R := (1 / (1 + exp (- x)))%R.

(** The same function as the code evaluates it, in float64.  [np_exp]
    stands for numpy's [np.exp] on float64, which is not part of the
    notebook. *)
Module Float64.
Import PrimFloat.

(** [s = 1/(1+np.exp(-x))] *)
Definition sigmoid64 (np_exp : float -> float) (x : float) : float :=
  (1 / (1 + np_exp (- x)))%float.

(** What IEEE 754 arithmetic fixes about [np.exp] at four arguments:
    [exp(-0.0) = 1.0], underflow to [0.0] at -800 and -900, overflow to
    [inf] at 800. *)
Definition ieee_exp (np_exp : float -> float) : Prop :=
  np_exp (opp 0) = 1%float /\ np_exp (opp 800) = 0%float /\
  np_exp (opp 900) = 0%float /\ np_exp 800%float = infinity.

End Float64.

(** ** Arrays

    A one-dimensional array of length [T] is a list; an array of shape
    [(n, T)] is the list of its [T] columns, since the notebook reads and
    writes it by column only ([a[:, t]]). *)

(** [np.zeros(T)] and [np.zeros((n, T))] *)
Definition zeros (T : nat) : list R := replicate T 0%R.
Definition zeros2 {A} (z : A) (n T : nat) : list (list A) :=
  replicate T (replicate n z).

(** [a[t]] and [a[:, t]] as an expression *)
Definition get {A} (a : list A) (t : nat) : result A :=
  match a !! t with
  | Some x => ret x
  | None => inl IndexError
  end.

(** [a[t] = x] and [a[:, t] = x] *)
Definition set {A} (a : list A) (t : nat) (x : A) : result (list A) :=
  if decide (t < length a)%nat then ret (<[t := x]> a) else inl IndexError.

(** [np.all(y == m)]: element by element, then the conjunction. *)
Definition np_all_eq (y m : list Z) : bool :=
  forallb (fun b : bool => b) (zip_with Z.eqb y m).

(** How a [for ... : ... break] loop was left. *)
Inductive loop_exit : Type := Broke | Exhausted.

(** ** The team network of section 4.1

    The notebook draws from numpy's global generator.  Its state is made
    explicit: [rng] is the type of generator states, [randn1] one standard
    normal draw and [bernoulli] one draw of [binomial(1, p)], each returning
    the next generator state. *)

Section Optimizer.
Local Open Scope R_scope.

Variable rng : Type.
Variable randn1 : rng -> R * rng.
Variable bernoulli : rng -> R -> Z * rng.

(** The parameters of cell 4.1a.  The notebook sets [n = 10],
    [T = 1000000], [alpha = 0.01], [delta = 0.0], [gamma = 0.9]. *)
Variables n T : nat.
Variables alpha delta gamma : R.

(** [np.random.randn(1, n)]: [n] draws in turn. *)
Fixpoint randn (k : nat) (g : rng) : list R * rng :=
  match k with
  | O => ([], g)
  | S k' => let '(x, g1) := randn1 g in
            let '(xs, g2) := randn k' g1 in
            (x :: xs, g2)
  end.

(** [np.random.binomial(1, p, n)] for a vector [p] of [n] probabilities:
    one draw per unit, in turn. *)
Fixpoint binomial (ps : list R) (g : rng) : list Z * rng :=
  match ps with
  | [] => ([], g)
  | q :: ps' => let '(b, g1) := bernoulli g q in
                let '(bs, g2) := binomial ps' g1 in
                (b :: bs, g2)
  end.

Record state : Type := State {
  w_0 : list (list R);       (* network weights *)
  delta_w0 : list (list R);
  e_0 : list (list R);       (* eligibility, e_0[i] = y[i] - p[i] *)
  p : list (list R);         (* p[i] = logistic(w_0[i]) *)
  r : list R;                (* r = J(y) *)
  r_bar : list R;            (* running average of r *)
  rho : list R;              (* reinforcement factor *)
  y : list (list Z);         (* y[i] = Bernoulli(p[i]) *)
  gen : rng                  (* numpy's generator *)
}.

(** b.1 [one_max_max = np.ones(n); max = one_max_max] *)
Definition one_max_max : list Z := replicate n 1%Z.
Definition max : list Z := one_max_max.

(** Cell 4.1a, the initialisation. *)
Definition init (g : rng) : result state :=
  let w_0 := zeros2 0 n T in
  let '(x, g) := randn n g in
  w_0 <- set w_0 0 x ;;
  let delta_w0 := zeros2 0 n T in
  let e_0 := zeros2 0 n T in
  let p := zeros2 0 n T in
  let r := zeros T in
  let r_bar := zeros T in
  r_0 <- get r 0 ;;
  r_bar <- set r_bar 0 r_0 ;;
  let rho := zeros T in
  r_0 <- get r 0 ;;
  rho <- set rho 0 r_0 ;;
  let y := zeros2 0%Z n T in
  ret (State w_0 delta_w0 e_0 p r r_bar rho y g).

(** The body of the loop of cell 4.1c at step [t]; the boolean is the
    condition of the final [if], under which the loop breaks. *)
Definition body (t : nat) (s : state) : result (state * bool) :=
  let '(State w_0 delta_w0 e_0 p r r_bar rho y g) := s in
  (* p[:, t] = sigmoid(w_0[:, t]) *)
  w_t <- get w_0 t ;;
  p <- set p t (map sigmoid w_t) ;;
  (* y[:, t] = np.random.binomial(1, p[:, t], n) *)
  p_t <- get p t ;;
  let '(b, g) := binomial p_t g in
  y <- set y t b ;;
  (* e_0[:, t] = y[:, t] - p[:, t] *)
  y_t <- get y t ;;
  p_t <- get p t ;;
  e_0 <- set e_0 t (zip_with (fun y_i p_i => IZR y_i - p_i) y_t p_t) ;;
  (* r[t] = one_max(y[:, t]) *)
  y_t <- get y t ;;
  r <- set r t (IZR (one_max y_t)) ;;
  (* r_bar[t+1] = gamma * r_bar[t] + (1 - gamma) * r[t] *)
  r_bar_t <- get r_bar t ;;
  r_t <- get r t ;;
  r_bar <- set r_bar (t + 1) (gamma * r_bar_t + (1 - gamma) * r_t) ;;
  (* rho[t+1] = r[t+1] - r_bar[t] *)
  r_t1 <- get r (t + 1) ;;
  r_bar_t <- get r_bar t ;;
  rho <- set rho (t + 1) (r_t1 - r_bar_t) ;;
  (* delta_w0[:, t] = alpha * r[t] * e_0[:, t] - delta * w_0[:, t] *)
  r_t <- get r t ;;
  e_t <- get e_0 t ;;
  w_t <- get w_0 t ;;
  delta_w0 <- set delta_w0 t
    (zip_with (fun e_i w_i => alpha * r_t * e_i - delta * w_i) e_t w_t) ;;
  (* w_0[:, t+1] = w_0[:, t] + delta_w0[:, t] *)
  w_t <- get w_0 t ;;
  d_t <- get delta_w0 t ;;
  w_0 <- set w_0 (t + 1) (zip_with Rplus w_t d_t) ;;
  (* if np.all(y[:,t] == max): break *)
  y_t <- get y t ;;
  ret (State w_0 delta_w0 e_0 p r r_bar rho y g, np_all_eq y_t max).

(** [for t in ts: body; if ...: break].  The result carries the state,
    the last value bound to [t] (none if the body never ran) and the way
    the loop was left. *)
Fixpoint for_break (ts : list nat) (last : option nat) (s : state)
  : result (state * option nat * loop_exit) :=
  match ts with
  | [] => ret (s, last, Exhausted)
  | t :: ts' =>
      sb <- body t s ;;
      if snd sb then ret (fst sb, Some t, Broke)
      else for_break ts' (Some t) (fst sb)
  end.

(** Cells 4.1a to 4.1c: initialise, then [for t in range(T-1)]. *)
Definition run (g : rng) : result (state * option nat * loop_exit) :=
  s <- init g ;;
  for_break (seq 0 (T - 1)) None s.

(** *** Notions used to state the properties of the loop *)

(** The state with another [rho] array, and a loop result with the [rho]
    array blanked. *)
Definition with_rho (x : list R) (s : state) : state :=
  State (w_0 s) (delta_w0 s) (e_0 s) (p s) (r s) (r_bar s) x (y s) (gen s).

Definition forget_rho (res : state * option nat * loop_exit)
  : state * option nat * loop_exit :=
  let '(s, last, ex) := res in (with_rho [] s, last, ex).

(** Every array has its [T] slots. *)
Definition shaped (s : state) : Prop :=
  length (w_0 s) = T /\ length (delta_w0 s) = T /\ length (e_0 s) = T /\
  length (p s) = T /\ length (r s) = T /\ length (r_bar s) = T /\
  length (rho s) = T /\ length (y s) = T.

(** The columns written by step [t], from the weights [w_t], the sample
    [y_t] and the values [rb = r_bar[t]] and [r1 = r[t+1]] read by it. *)
Definition p_col (w_t : list R) : list R := map sigmoid w_t.
Definition e_col (w_t : list R) (y_t : list Z) : list R :=
  zip_with (fun y_i p_i => IZR y_i - p_i) y_t (p_col w_t).
Definition r_val (y_t : list Z) : R := IZR (one_max y_t).
Definition d_col (w_t : list R) (y_t : list Z) : list R :=
  zip_with (fun e_i w_i => alpha * r_val y_t * e_i - delta * w_i)
           (e_col w_t y_t) w_t.
Definition w_col (w_t : list R) (y_t : list Z) : list R :=
  zip_with Rplus w_t (d_col w_t y_t).

(** The state after step [t], when no index is out of range. *)
Definition next (t : nat) (s : state) (w_t : list R) (rb r1 : R) : state :=
  let '(y_t, g) := binomial (p_col w_t) (gen s) in
  State (<[(t + 1)%nat := w_col w_t y_t]> (w_0 s))
        (<[t := d_col w_t y_t]> (delta_w0 s))
        (<[t := e_col w_t y_t]> (e_0 s))
        (<[t := p_col w_t]> (p s))
        (<[t := r_val y_t]> (r s))
        (<[(t + 1)%nat := gamma * rb + (1 - gamma) * r_val y_t]> (r_bar s))
        (<[(t + 1)%nat := r1 - rb]> (rho s))
        (<[t := y_t]> (y s))
        g.

(** In state [s] the slots of step [t] hold what step [t] computes. *)
Definition step_done (s : state) (t : nat) : Prop :=
  exists (w_t : list R) (y_t : list Z) (rb : R),
    length w_t = n /\ length y_t = n /\
    w_0 s !! t = Some w_t /\
    p s !! t = Some (p_col w_t) /\
    y s !! t = Some y_t /\
    e_0 s !! t = Some (e_col w_t y_t) /\
    r s !! t = Some (r_val y_t) /\
    r_bar s !! t = Some rb /\
    r_bar s !! (t + 1)%nat = Some (gamma * rb + (1 - gamma) * r_val y_t) /\
    rho s !! (t + 1)%nat = Some (0 - rb) /\
    delta_w0 s !! t = Some (d_col w_t y_t) /\
    w_0 s !! (t + 1)%nat = Some (w_col w_t y_t).

(** The sample of step [t] is the known optimum. *)
Definition hit (s : state) (t : nat) : Prop := y s !! t = Some max.

(** What holds when step [t] is about to run. *)
Definition at_step (t : nat) (s : state) : Prop :=
  shaped s /\
  (forall t', (t' < t)%nat -> step_done s t' /\ ~ hit s t') /\
  (exists w_t, w_0 s !! t = Some w_t /\ length w_t = n) /\
  (forall t', (t <= t')%nat -> (t' < T)%nat -> r s !! t' = Some 0).

(** The arrays of a state, without the generator. *)
Definition arrays (s : state) :=
  (w_0 s, delta_w0 s, e_0 s, p s, r s, r_bar s, rho s, y s).

End Optimizer.

Arguments State {rng}.
Arguments w_0 {rng}.
Arguments delta_w0 {rng}.
Arguments e_0 {rng}.
Arguments p {rng}.
Arguments r {rng}.
Arguments r_bar {rng}.
Arguments rho {rng}.
Arguments y {rng}.
Arguments gen {rng}.
Arguments randn {rng}.
Arguments binomial {rng}.
Arguments init {rng}.
Arguments body {rng}.
Arguments for_break {rng}.
Arguments run {rng}.
Arguments with_rho {rng}.
Arguments forget_rho {rng}.
Arguments shaped {rng}.
Arguments next {rng}.
Arguments step_done {rng}.
Arguments hit {rng}.
Arguments at_step {rng}.
Arguments arrays {rng}.

(** The same function on a normal return, the same exception otherwise. *)
Definition map_result {A B} (f : A -> B) (m : result A) : result B :=
  match m with
  | inl e => inl e
  | inr a => inr (f a)
  end.

(** Two results of the same kind: the same exception, or values related by
    [P]. *)
Definition rel_result {A B} (P : A -> B -> Prop) (m1 : result A)
  (m2 : result B) : Prop :=
  match m1, m2 with
  | inl e1, inl e2 => e1 = e2
  | inr a, inr b => P a b
  | _, _ => False
  end.

(** Two loop results that differ in the generator only. *)
Definition same_outcome {rng1 rng2 : Type}
  (res1 : state rng1 * option nat * loop_exit)
  (res2 : state rng2 * option nat * loop_exit) : Prop :=
  arrays (fst (fst res1)) = arrays (fst (fst res2)) /\
  snd (fst res1) = snd (fst res2) /\
  snd res1 = snd res2.

(** What a loop result shows: the samples, the last [t] and the exit. *)
Definition observe {rng : Type} (res : state rng * option nat * loop_exit)
  : list (list Z) * option nat * loop_exit :=
  (y (fst (fst res)), snd (fst res), snd res).

(** The cell run twice in one session.  The notebook never seeds numpy's
    global generator, so the second run starts from the generator state
    that the first run left. *)
Definition run_twice {rng : Type} (randn1 : rng -> R * rng)
  (bernoulli : rng -> R -> Z * rng) (n T : nat) (alpha delta gamma : R)
  (g : rng) :=
  res1 <- run randn1 bernoulli n T alpha delta gamma g ;;
  res2 <- run randn1 bernoulli n T alpha delta gamma (gen (fst (fst res1))) ;;
  ret (res1, res2).

(** [a[i, t]] *)
Definition entry {A} (a : list (list A)) (i t : nat) : option A :=
  match a !! t with
  | Some c => c !! i
  | None => None
  end.

(** A generator that replays a tape of Bernoulli outcomes (0 once the tape
    is used up) and whose normal draws are all 0. *)
Module Tape.
Definition rng : Type := list Z.
Definition randn1 (g : rng) : R * rng := (0%R, g).
Definition bernoulli (g : rng) (q : R) : Z * rng :=
  match g with
  | [] => (0%Z, [])
  | b :: g' => (b, g')
  end.

(** A run of two units with budget 3 and the notebook's [alpha], [delta]
    and [gamma]: the tape makes the first sample [[1; 0]] and the second
    the optimum [[1; 1]]. *)
Definition example_run : result (state rng * option nat * loop_exit) :=
  run randn1 bernoulli 2 3 0.01%R 0.0%R 0.9%R [1; 0; 1; 1]%Z.
End Tape.

(** A generator that replays a tape of coin flips as Bernoulli outcomes
    (tails once the tape is used up) and whose normal draws are all 0. *)
Module Coin.
Definition rng : Type := list bool.
Definition randn1 (g : rng) : R * rng := (0%R, g).
Definition bernoulli (g : rng) (q : R) : Z * rng :=
  match g with
  | [] => (0%Z, [])
  | b :: g' => (Z.b2z b, g')
  end.

(** Two units, budget 4, the notebook's [alpha], [delta] and [gamma]. *)
Definition example_run : result (state rng * option nat * loop_exit) :=
  run randn1 bernoulli 2 4 0.01%R 0.0%R 0.9%R [true; false; false; true].
End Coin.

(** The tape that yields the draws of a tape of coin flips. *)
Definition tape_of_coin (g : Coin.rng) : Tape.rng := map Z.b2z g.

(** ** Notions used to state the properties *)

(** A vector of bits: every entry is 0 or 1. *)
Definition is_bits (u : list Z) : bool :=
  forallb (fun b => (b =? 0)%Z || (b =? 1)%Z) u.

(** The vector with every bit flipped. *)
Definition flip (u : list Z) : list Z := map (fun b => (1 - b)%Z) u.

(** [m] is a normal return whose value is the rational [q]. *)
Definition returns (m : result Q) (q : Q) : Prop :=
  match m with
  | inr v => v == q
  | inl _ => False
  end.

(** * Properties of the objective functions *)

Section SumFacts.
Local Open Scope Z_scope.

Lemma sum_from (u : list Z) (a : Z) : fold_left Z.add u a = a + Py.sum u.
Proof.
  unfold Py.sum. revert a.
  induction u as [|x u IH]; intros a; simpl; [lia|].
  rewrite (IH (a + x)), (IH (0 + x)). lia.
Qed.

Lemma sum_cons (x : Z) (u : list Z) : Py.sum (x :: u) = x + Py.sum u.
Proof. unfold Py.sum at 1. simpl. apply sum_from. Qed.

Lemma len_cons {A} (x : A) (u : list A) : Py.len (x :: u) = 1 + Py.len u.
Proof. unfold Py.len. simpl length. lia. Qed.

Lemma is_bits_cons (x : Z) (u : list Z) :
  is_bits (x :: u) = true -> (x = 0 \/ x = 1) /\ is_bits u = true.
Proof.
  unfold is_bits. simpl. intros H.
  apply andb_prop in H as [Hx Hu]. split; [|exact Hu].
  apply orb_prop in Hx as [Hx|Hx]; apply Z.eqb_eq in Hx; auto.
Qed.

Lemma sum_bits_bounds (u : list Z) :
  is_bits u = true -> 0 <= Py.sum u <= Py.len u.
Proof.
  induction u as [|x u IH]; intros Hb.
  - unfold Py.sum, Py.len. simpl. lia.
  - apply is_bits_cons in Hb as [Hx Hu]. specialize (IH Hu).
    rewrite sum_cons, len_cons. lia.
Qed.

Lemma sum_flip (u : list Z) : Py.sum (flip u) = Py.len u - Py.sum u.
Proof.
  induction u as [|x u IH].
  - reflexivity.
  - change (flip (x :: u)) with ((1 - x) :: flip u).
    rewrite !sum_cons, len_cons, IH. lia.
Qed.

Lemma len_flip (u : list Z) : Py.len (flip u) = Py.len u.
Proof. unfold Py.len, flip. now rewrite length_map. Qed.

Lemma sum_replicate (k : nat) (b : Z) :
  Py.sum (replicate k b) = Z.of_nat k * b.
Proof.
  induction k as [|k IH]; [reflexivity|].
  change (replicate (S k) b) with (b :: replicate k b).
  rewrite sum_cons, IH. lia.
Qed.

Lemma len_replicate {A} (k : nat) (b : A) :
  Py.len (replicate k b) = Z.of_nat k.
Proof. unfold Py.len. now rewrite length_replicate. Qed.

End SumFacts.

(** ** TwoMax *)

Section TwoMax.
Local Open Scope Z_scope.

(** C1 (the code departs from its docstring).  [two_max] returns
    [|18 * ones - 8 * n|], without the outer factor 18 that its docstring
    announces: on [[1]] it returns 10 where the docstring formula gives
    180, and the two agree only where both are 0. *)
Theorem two_max_lacks_factor_18 :
  two_max [1] = 10 /\
  18 * Z.abs (18 * Py.sum [1] - 8 * Py.len [1]) = 180 /\
  forall u : list Z,
    two_max u = Z.abs (18 * Py.sum u - 8 * Py.len u) /\
    (two_max u = 18 * Z.abs (18 * Py.sum u - 8 * Py.len u) <->
     18 * Py.sum u = 8 * Py.len u).
Proof.
  split; [reflexivity|]. split; [reflexivity|].
  intros u. split; [reflexivity|].
  unfold two_max. lia.
Qed.

(** C5, as stated, fails: for [n = 2] the all-ones vector scores 20, its
    flip (all zeros) scores 16, and neither is [18 * 8 * n = 288]. *)
Lemma two_max_flip_counterexample :
  is_bits [1; 1] = true /\ Nat.Even (length [1; 1]) /\
  two_max (flip [1; 1]) <> two_max [1; 1] /\
  two_max (replicate 2 1) <> 18 * (8 * 2) /\
  two_max (replicate 2 0) <> 18 * (8 * 2) /\
  two_max (replicate 2 1) <> two_max (replicate 2 0).
Proof.
  split; [reflexivity|]. split; [exists 1%nat; reflexivity|].
  repeat split; vm_compute; discriminate.
Qed.

(** C5, amended.  For a bit vector [u] of length [n]: flipping every bit
    preserves TwoMax exactly when half of the bits are ones; the all-ones
    vector attains the maximum over all such [u]; and the all-zeros vector
    scores 8/10 of the all-ones vector. *)
Theorem two_max_two_modes (n : nat) (u : list Z) :
  is_bits u = true -> length u = n ->
  (two_max (flip u) = two_max u <-> 2 * Py.sum u = Z.of_nat n) /\
  two_max u <= two_max (replicate n 1) /\
  10 * two_max (replicate n 0) = 8 * two_max (replicate n 1).
Proof.
  intros Hb Hn.
  pose proof (sum_bits_bounds u Hb) as Hs.
  assert (Hl : Py.len u = Z.of_nat n) by (unfold Py.len; now rewrite Hn).
  unfold two_max.
  rewrite sum_flip, len_flip, !sum_replicate, !len_replicate, Hl.
  rewrite Hl in Hs. lia.
Qed.

Lemma two_max_two_modes_witness :
  (two_max (flip [1; 0; 0; 1]) = two_max [1; 0; 0; 1] <->
   2 * Py.sum [1; 0; 0; 1] = Z.of_nat 4) /\
  two_max [1; 0; 0; 1] <= two_max (replicate 4 1) /\
  10 * two_max (replicate 4 0) = 8 * two_max (replicate 4 1).
Proof. apply (two_max_two_modes 4 [1; 0; 0; 1]); reflexivity. Defined.

End TwoMax.

(** ** Plateaus *)

Section PlateausFacts.
Local Open Scope Z_scope.

Lemma int_of_integer (q : Q) (z : Z) : q == inject_Z z -> Py.int q = z.
Proof.
  unfold Qeq, Py.int. simpl. intros H.
  rewrite Z.mul_1_r in H. rewrite H.
  apply Z.quot_mul. discriminate.
Qed.

Lemma plateaus_range_quartile (m k : Z) :
  plateaus_range (4 * m) k = Py.range (k * m + 1) ((k + 1) * m).
Proof.
  unfold plateaus_range. f_equal; apply int_of_integer.
  - unfold Qeq. simpl. lia.
  - unfold Qeq. simpl. lia.
Qed.

Lemma range_bounds (a b i : Z) : In i (Py.range a b) -> a <= i < b.
Proof.
  unfold Py.range. rewrite in_map_iff.
  intros (j & <- & Hj). apply in_seq in Hj. lia.
Qed.

Lemma getitem_in_range (u : list Z) (i : Z) :
  0 <= i < Py.len u -> exists b, Py.getitem u i = inr b.
Proof.
  unfold Py.getitem, Py.len. intros Hi.
  destruct (Z.ltb_spec i 0) as [?|_]; [lia|].
  destruct (Z.ltb_spec i 0) as [?|_]; [lia|].
  destruct (nth_error u (Z.to_nat i)) as [b|] eqn:E; [now exists b|].
  apply nth_error_None in E. lia.
Qed.

Lemma inner_loop_returns (n : Z) (u : list Z) (xs : list Z) (J_k : Q) :
  (forall i, In i xs -> 0 <= i < Py.len u) ->
  exists v, for_each (plateaus_inner n u) xs J_k = inr v.
Proof.
  revert J_k. induction xs as [|i xs IH]; intros J_k Hxs.
  - now exists J_k.
  - destruct (getitem_in_range u i) as [b Hb]; [apply Hxs; now left|].
    simpl. unfold plateaus_inner at 1. rewrite Hb. simpl.
    apply IH. intros j Hj. apply Hxs. now right.
Qed.

Lemma outer_turn_returns (m : Z) (u : list Z) (st : Q * Q) (k : Z) :
  Py.len u = 4 * m -> 0 <= k <= 3 ->
  exists st', plateaus_outer (4 * m) u st k = inr st'.
Proof.
  intros Hn Hk. destruct st as [J J_k]. unfold plateaus_outer.
  destruct (inner_loop_returns (4 * m) u (plateaus_range (4 * m) k) J_k)
    as [v Hv].
  - intros i Hi. rewrite plateaus_range_quartile in Hi.
    apply range_bounds in Hi. nia.
  - rewrite Hv. simpl. eauto.
Qed.

Lemma outer_loop_returns (m : Z) (u : list Z) (ks : list Z) (st : Q * Q) :
  Py.len u = 4 * m -> (forall k, In k ks -> 0 <= k <= 3) ->
  exists st', for_each (plateaus_outer (Py.len u) u) ks st = inr st'.
Proof.
  intros Hn. revert st. induction ks as [|k ks IH]; intros st Hks.
  - now exists st.
  - destruct (outer_turn_returns m u st k Hn) as [st1 E1];
      [apply Hks; now left|].
    rewrite <- Hn in E1. cbn [for_each]. rewrite E1. cbn [bind].
    apply IH. intros j Hj. apply Hks. now right.
Qed.

Lemma inner_loop_stays_zero (n : Z) (u : list Z) (xs : list Z) (J_k v : Q) :
J_k == 0 -> for_each (plateaus_inner n u) xs J_k = inr v -> v == 0.
Proof.
  revert J_k. induction xs as [|i xs IH]; intros J_k Hz Hrun.
  - injection Hrun as <-. exact Hz.
  - cbn [for_each] in Hrun. unfold plateaus_inner at 1 in Hrun.
    destruct (Py.getitem u i) as [e|b]; [discriminate Hrun|].
    cbn [bind ret] in Hrun. apply IH in Hrun; [exact Hrun|].
    rewrite Hz. ring.
Qed.

Lemma inner_loop_meets_zero (n : Z) (u : list Z) (xs : list Z) (i : Z)
  (J_k v : Q) :
In i xs -> Py.getitem u i = inr 0 ->
for_each (plateaus_inner n u) xs J_k = inr v -> v == 0.
Proof.
  revert J_k. induction xs as [|j xs IH]; intros J_k Hin Hu Hrun.
  - destruct Hin.
  - cbn [for_each] in Hrun. unfold plateaus_inner at 1 in Hrun.
    destruct Hin as [->|Hin].
    + rewrite Hu in Hrun. cbn [bind ret] in Hrun.
      apply inner_loop_stays_zero in Hrun; [exact Hrun|]. ring.
    + destruct (Py.getitem u j) as [e|b]; [discriminate Hrun|].
      cbn [bind ret] in Hrun. now apply IH in Hrun.
Qed.

Lemma outer_loop_stays_zero (n : Z) (u : list Z) (ks : list Z)
  (st st' : Q * Q) :
snd st == 0 -> for_each (plateaus_outer n u) ks st = inr st' ->
fst st' == fst st.
Proof.
  revert st. induction ks as [|k ks IH]; intros [J J_k] Hz Hrun.
  - now injection Hrun as <-.
  - cbn [for_each] in Hrun. unfold plateaus_outer at 1 in Hrun.
    destruct (for_each (plateaus_inner n u) (plateaus_range n k) J_k)
      as [e|v] eqn:Ev; [discriminate Hrun|].
    cbn [bind ret] in Hrun. cbn [snd] in Hz.
    apply inner_loop_stays_zero in Ev; [|exact Hz].
    apply IH in Hrun; [|exact Ev].
    cbn [fst] in *. rewrite Hrun, Ev. ring.
Qed.

Lemma in_range (a b i : Z) : a <= i < b -> In i (Py.range a b).
Proof.
  intros Hi. unfold Py.range. apply in_map_iff.
  exists (Z.to_nat (i - a)). split; [lia|]. apply in_seq. lia.
Qed.

End PlateausFacts.

(** C6.  When [len(u)] is not a multiple of 4, [plateaus] raises the
    assertion error, whatever [u] holds: the assertion is the first action
    and its failure discards both loops.  When it is a multiple of 4 the
    call returns a value (no index leaves the vector). *)
Theorem plateaus_requires_multiple_of_4 (u : list Z) :
  ((Py.len u mod 4)%Z <> 0%Z ->
   plateaus u = inl (AssertionError "n must be a multiple of 4.")) /\
  ((Py.len u mod 4)%Z = 0%Z -> exists J : Q, plateaus u = inr J).
Proof.
  split; intros Hn; unfold plateaus.
  - destruct (Z.eqb_spec (Py.len u mod 4) 0) as [E|_]; [contradiction|].
    reflexivity.
  - assert (Hm : Py.len u = (4 * (Py.len u / 4))%Z).
    { apply Z_div_exact_full_2; [lia|exact Hn]. }
    apply Z.eqb_eq in Hn. rewrite Hn. cbn [assert bind ret].
    destruct (outer_loop_returns _ u (Py.range 0 4) (0%Q, 1%Q) Hm)
      as [st E].
    + intros k Hk. apply range_bounds in Hk. lia.
    + rewrite E. cbn [bind ret]. eauto.
Qed.

Lemma plateaus_requires_multiple_of_4_witness :
  plateaus [1; 0; 1]%Z = inl (AssertionError "n must be a multiple of 4.") /\
  exists J : Q, plateaus [1; 0; 1; 1; 0; 1; 1; 1]%Z = inr J.
Proof.
  split.
  - apply (proj1 (plateaus_requires_multiple_of_4 [1; 0; 1]%Z)).
    vm_compute. discriminate.
  - apply (proj2 (plateaus_requires_multiple_of_4 [1; 0; 1; 1; 0; 1; 1; 1]%Z)).
    reflexivity.
Defined.

(** C10.  For [n = 4] every inner range is empty, each quartile adds the
    untouched [J_k = 1], and the result is 4 for every vector. *)
Theorem plateaus_length_4_constant (u : list Z) :
  length u = 4%nat -> plateaus u = inr 4%Q.
Proof.
  intros Hu.
  destruct u as [|a [|b [|c [|d [|e u]]]]]; try discriminate Hu.
  reflexivity.
Qed.

Lemma plateaus_length_4_constant_witness :
  plateaus [0; 1; 0; 1]%Z = inr 4%Q.
Proof. apply (plateaus_length_4_constant [0; 1; 0; 1]%Z). reflexivity. Defined.

(** C2 (the code departs from the claim).  [J_k] is seeded once, before the
    loop over the quartiles, so each quartile's contribution is the product
    over all quartiles so far.  For [n = 8] the all-ones vector scores
    [20 + 20^2 + 20^3 + 20^4 = 168420], and a zero at index 1 (inside the
    first quartile) brings the whole score to 0; with the product reseeded
    per quartile the scores would be 80 and 60.  In general a zero inside
    the first quartile's range [1 .. n/4 - 1] makes the score 0. *)
Theorem plateaus_product_carried_over :
  returns (plateaus [1; 1; 1; 1; 1; 1; 1; 1]%Z) 168420 /\
  returns (plateaus [1; 0; 1; 1; 1; 1; 1; 1]%Z) 0 /\
  returns (plateaus_reseeded [1; 1; 1; 1; 1; 1; 1; 1]%Z) 80 /\
  returns (plateaus_reseeded [1; 0; 1; 1; 1; 1; 1; 1]%Z) 60 /\
  forall (u : list Z) (m i : Z),
    Py.len u = (4 * m)%Z -> (1 <= i < m)%Z -> Py.getitem u i = inr 0%Z ->
    returns (plateaus u) 0.
Proof.
  do 4 (split; [vm_compute; reflexivity|]).
  intros u m i Hn Hi Hu. unfold plateaus.
  assert (Hmod : (Py.len u mod 4 =? 0)%Z = true).
  { apply Z.eqb_eq. rewrite Hn, Z.mul_comm. apply Z_mod_mult. }
  rewrite Hmod. cbn [assert bind ret].
  change (Py.range 0 4) with [0; 1; 2; 3]%Z.
  destruct (outer_loop_returns m u [0; 1; 2; 3]%Z (0%Q, 1%Q) Hn) as [st E].
  { intros k Hk. simpl in Hk. lia. }
  rewrite E. cbn [bind ret returns].
  cbn [for_each] in E.
  destruct (plateaus_outer (Py.len u) u (0%Q, 1%Q) 0) as [e|[J0 J_k0]] eqn:E0;
    [discriminate E|].
  cbn [bind] in E.
  unfold plateaus_outer in E0.
  destruct (for_each (plateaus_inner (Py.len u) u)
              (plateaus_range (Py.len u) 0) 1%Q) as [e|v] eqn:Ev;
    [discriminate E0|].
  cbn [bind ret] in E0. injection E0 as <- <-.
  apply (inner_loop_meets_zero _ _ _ i) in Ev; [|rewrite Hn, plateaus_range_quartile; apply in_range; lia|exact Hu].
  change (for_each (plateaus_outer (Py.len u) u) [1; 2; 3]%Z (0 + v, v)%Q = inr st) in E.
  apply outer_loop_stays_zero in E; [|exact Ev].
  cbn [fst] in E. rewrite E, Ev. reflexivity.
Qed.

(** * The logistic function *)

Section Logistic.
Local Open Scope R_scope.

Lemma sigmoid_denominator_pos (x : R) : 0 < 1 + exp (- x).
Proof. pose proof (exp_pos (- x)). lra. Qed.

Lemma sigmoid_range (x : R) : 0 < sigmoid x < 1.
Proof.
  unfold sigmoid.
  pose proof (exp_pos (- x)) as He.
  pose proof (sigmoid_denominator_pos x) as Hd.
  split.
  - apply Rdiv_lt_0_compat; lra.
  - apply (Rmult_lt_reg_r (1 + exp (- x))); [exact Hd|].
    unfold Rdiv. rewrite Rmult_assoc, Rinv_l by lra. lra.
Qed.

Lemma sigmoid_increasing (x x' : R) : x < x' -> sigmoid x < sigmoid x'.
Proof.
  intros Hx. unfold sigmoid, Rdiv. rewrite !Rmult_1_l.
  apply Rinv_lt_contravar.
  - apply Rmult_lt_0_compat; apply sigmoid_denominator_pos.
  - apply Rplus_lt_compat_l, exp_increasing. lra.
Qed.

Lemma sigmoid_at_zero : sigmoid 0 = 0.5.
Proof. unfold sigmoid. rewrite Ropp_0, exp_0. lra. Qed.

End Logistic.

Section LogisticFloat64.
Import PrimFloat Float64.

(** The float64 values of [sigmoid64] where [np.exp] is fixed by IEEE 754:
    exactly 0.5 at 0, exactly 1 at 800 and at 900, exactly 0 at -800. *)
Lemma sigmoid64_saturated (np_exp : float -> float) :
  ieee_exp np_exp ->
  sigmoid64 np_exp 0 = 0.5%float /\
  sigmoid64 np_exp 800 = 1%float /\
  sigmoid64 np_exp 900 = 1%float /\
  sigmoid64 np_exp (opp 800) = 0%float.
Proof.
  intros (H0 & H800 & H900 & Hinf). unfold sigmoid64.
  change (opp (opp 800)) with 800%float.
  rewrite H0, H800, H900, Hinf. repeat split; reflexivity.
Qed.

(** C9, as stated, fails on float64: no [np.exp] that agrees with IEEE 754
    at -800, -900 and 800 makes [sigmoid64] strictly increasing, and none
    keeps its values strictly between 0 and 1. *)
Lemma sigmoid64_not_strict :
  (~ exists np_exp : float -> float,
       ieee_exp np_exp /\
       forall x x' : float,
         ltb x x' = true ->
         ltb (sigmoid64 np_exp x) (sigmoid64 np_exp x') = true) /\
  (~ exists np_exp : float -> float,
       ieee_exp np_exp /\
       forall x : float,
         ltb 0 (sigmoid64 np_exp x) = true /\
         ltb (sigmoid64 np_exp x) 1 = true).
Proof.
  split; intros (np_exp & Hexp & H);
    destruct (sigmoid64_saturated np_exp Hexp) as (_ & E800 & E900 & Em800).
  - specialize (H 800%float 900%float eq_refl).
    rewrite E800, E900 in H. discriminate H.
  - destruct (H 800%float) as [_ H1]. rewrite E800 in H1. discriminate H1.
Qed.

(** C9, amended.  Over the reals [sigmoid 0 = 0.5], [sigmoid] is strictly
    increasing and every value lies strictly between 0 and 1.  On float64,
    with any [np.exp] that agrees with IEEE 754 at the four arguments of
    [ieee_exp], [sigmoid64] is exactly 0.5 at 0 and saturates: exactly 1 at
    800 and at 900, exactly 0 at -800. *)
Theorem sigmoid_real_and_float64 :
  (sigmoid 0 = 0.5 /\
   (forall x x' : R, x < x' -> sigmoid x < sigmoid x') /\
   (forall x : R, 0 < sigmoid x < 1))%R /\
  forall np_exp : float -> float,
    ieee_exp np_exp ->
    sigmoid64 np_exp 0 = 0.5%float /\
    sigmoid64 np_exp 800 = 1%float /\
    sigmoid64 np_exp 900 = 1%float /\
    sigmoid64 np_exp (opp 800) = 0%float.
Proof.
  split.
  - split; [exact sigmoid_at_zero|].
    split; [exact sigmoid_increasing|exact sigmoid_range].
  - exact sigmoid64_saturated.
Qed.

End LogisticFloat64.

(** * The optimiser loop *)

Section ArrayFacts.
Context {A : Type}.
Implicit Types (a : list A) (t : nat) (x : A).

Lemma get_lookup a t x : a !! t = Some x -> get a t = inr x.
Proof. unfold get. now intros ->. Qed.

Lemma get_inv a t x : get a t = inr x -> a !! t = Some x.
Proof. unfold get, ret. destruct (a !! t); congruence. Qed.

Lemma set_in_range a t x : (t < length a)%nat -> set a t x = inr (<[t := x]> a).
Proof. unfold set. intros H. now rewrite decide_True. Qed.

Lemma get_set_same a t x : (t < length a)%nat -> get (<[t := x]> a) t = inr x.
Proof. intros H. apply get_lookup. now apply list_lookup_insert_eq. Qed.

Lemma get_set_other a t t' x : t <> t' -> get (<[t := x]> a) t' = get a t'.
Proof. intros H. unfold get. now rewrite list_lookup_insert_ne. Qed.

End ArrayFacts.

Lemma np_all_eq_iff (u m : list Z) :
  length u = length m -> np_all_eq u m = true <-> u = m.
Proof.
  unfold np_all_eq. revert m.
  induction u as [|a u IH]; intros [|b m] Hl; try discriminate Hl.
  - now split.
  - simpl in Hl. injection Hl as Hl. specialize (IH m Hl). simpl.
    rewrite andb_true_iff, Z.eqb_eq, IH. split.
    + now intros [-> ->].
    + intros E. injection E as -> ->. now split.
Qed.

Section OptimizerFacts.
Local Open Scope R_scope.
Context {rng : Type}.
Variable randn1 : rng -> R * rng.
Variable bernoulli : rng -> R -> Z * rng.
Variables n T : nat.
Variables alpha delta gamma : R.

Local Abbreviation body_ := (body bernoulli n alpha delta gamma).
Local Abbreviation next_ := (next bernoulli alpha delta gamma).
Local Abbreviation step_done_ := (step_done n alpha delta gamma).
Local Abbreviation at_step_ := (at_step n T alpha delta gamma).
Local Abbreviation for_break_ := (for_break bernoulli n alpha delta gamma).
Local Abbreviation run_ := (run randn1 bernoulli n T alpha delta gamma).
Local Abbreviation init_ := (init randn1 n T).

Lemma randn_length (k : nat) (g : rng) : length (fst (randn randn1 k g)) = k.
Proof.
  revert g. induction k as [|k IH]; intros g; simpl; [reflexivity|].
  destruct (randn1 g) as [x g1]. specialize (IH g1).
  destruct (randn randn1 k g1) as [xs g2]. simpl in *. now rewrite IH.
Qed.

Lemma binomial_length (ps : list R) (g : rng) :
  length (fst (binomial bernoulli ps g)) = length ps.
Proof.
  revert g. induction ps as [|q ps IH]; intros g; simpl; [reflexivity|].
  destruct (bernoulli g q) as [b g1]. specialize (IH g1).
  destruct (binomial bernoulli ps g1) as [bs g2]. simpl in *. now rewrite IH.
Qed.

Ltac array_step :=
  first
    [ rewrite get_set_same by (rewrite ?length_insert; lia)
    | rewrite get_set_other by lia
    | erewrite get_lookup by eassumption
    | rewrite set_in_range by (rewrite ?length_insert; lia) ];
  cbn [bind ret].

(** With every array in shape and [t + 1 < T], the body raises nothing and
    its effect is [next]. *)
Lemma body_next (t : nat) (s : state rng) :
  shaped T s -> (t + 1 < T)%nat ->
  exists (w_t : list R) (rb r1 : R),
    w_0 s !! t = Some w_t /\ r_bar s !! t = Some rb /\
    r s !! (t + 1)%nat = Some r1 /\
    body_ t s =
      inr (next_ t s w_t rb r1,
           np_all_eq (fst (binomial bernoulli (p_col w_t) (gen s)))
                     (max n)).
Proof.
  intros Hs Ht. destruct s as [w dw e pp rr rb rh yy g].
  unfold shaped in Hs. cbn [w_0 delta_w0 e_0 p r r_bar rho y gen] in *.
  destruct Hs as (Hw & Hdw & He & Hp & Hr & Hrb & Hrh & Hy).
  destruct (lookup_lt_is_Some_2 w t) as [w_t Ew]; [lia|].
  destruct (lookup_lt_is_Some_2 rb t) as [b Eb]; [lia|].
  destruct (lookup_lt_is_Some_2 rr (t + 1)) as [r1 Er]; [lia|].
  exists w_t, b, r1. repeat split; try assumption.
  unfold body, next. cbn [gen w_0 delta_w0 e_0 p r r_bar rho y].
  repeat array_step. fold (p_col w_t).
  destruct (binomial bernoulli (p_col w_t) g) as [y_t g'].
  repeat array_step.
  reflexivity.
Qed.

Lemma next_unfold (t : nat) (s : state rng) (w_t : list R) (rb r1 : R) :
  let y_t := fst (binomial bernoulli (p_col w_t) (gen s)) in
  next_ t s w_t rb r1 =
    State (<[(t + 1)%nat := w_col alpha delta w_t y_t]> (w_0 s))
          (<[t := d_col alpha delta w_t y_t]> (delta_w0 s))
          (<[t := e_col w_t y_t]> (e_0 s))
          (<[t := p_col w_t]> (p s))
          (<[t := r_val y_t]> (r s))
          (<[(t + 1)%nat := gamma * rb + (1 - gamma) * r_val y_t]> (r_bar s))
          (<[(t + 1)%nat := r1 - rb]> (rho s))
          (<[t := y_t]> (y s))
          (snd (binomial bernoulli (p_col w_t) (gen s))).
Proof.
  unfold next. now destruct (binomial bernoulli (p_col w_t) (gen s)).
Qed.

Lemma w_col_length (w_t : list R) (y_t : list Z) :
  length y_t = length w_t -> length (w_col alpha delta w_t y_t) = length w_t.
Proof.
  intros Hy. unfold w_col, d_col, e_col, p_col.
  rewrite !length_zip_with, length_map. lia.
Qed.

(** Step [t] leaves the slots of the earlier steps as they are. *)
Lemma step_done_frame (t t' : nat) (s : state rng) (w_t : list R) (rb r1 : R) :
  (t' < t)%nat -> step_done_ s t' -> step_done_ (next_ t s w_t rb r1) t'.
Proof.
  intros Hlt (w' & y' & b' & H). rewrite next_unfold.
  exists w', y', b'. cbn [w_0 delta_w0 e_0 p r r_bar rho y].
  rewrite !list_lookup_insert_ne by lia. exact H.
Qed.

Lemma hit_frame (t t' : nat) (s : state rng) (w_t : list R) (rb r1 : R) :
  (t' < t)%nat -> hit n (next_ t s w_t rb r1) t' <-> hit n s t'.
Proof.
  intros Hlt. unfold hit. rewrite next_unfold. cbn [y].
  now rewrite list_lookup_insert_ne by lia.
Qed.

(** One turn of the loop from a state in which step [t] is due. *)
Lemma body_at_step (t : nat) (s : state rng) :
  at_step_ t s -> (t + 1 < T)%nat ->
  exists (s' : state rng) (b : bool),
    body_ t s = inr (s', b) /\
    shaped T s' /\
    (forall t', (t' <= t)%nat -> step_done_ s' t') /\
    (forall t', (t' < t)%nat -> ~ hit n s' t') /\
    (b = true <-> hit n s' t) /\
    (exists w, w_0 s' !! (t + 1)%nat = Some w /\ length w = n) /\
    (forall t', (t + 1 <= t')%nat -> (t' < T)%nat -> r s' !! t' = Some 0).
Proof.
  intros (Hs & Hdone & (w_t & Ew & Hn) & Hfresh) Ht.
  destruct (body_next t s Hs Ht) as (w' & rb & r1 & Ew' & Eb & Er & Hbody).
  rewrite Ew in Ew'. injection Ew' as <-.
  rewrite Hfresh in Er by lia. injection Er as <-.
  eexists _, _. split; [exact Hbody|].
  pose proof (binomial_length (p_col w_t) (gen s)) as Hy.
  unfold p_col in Hy at 2. rewrite length_map, Hn in Hy.
  set (y_t := fst (binomial bernoulli (p_col w_t) (gen s))) in *.
  destruct Hs as (Hw & Hdw & He & Hp & Hr & Hrb & Hrh & Hyy).
  assert (Hnext : forall t', (t' <= t)%nat ->
            step_done_ (next_ t s w_t rb 0) t').
  { intros t' Hle. destruct (decide (t' = t)) as [->|Hne].
    - rewrite next_unfold. fold y_t.
      exists w_t, y_t, rb. cbn [w_0 delta_w0 e_0 p r r_bar rho y].
      rewrite !list_lookup_insert_eq by lia.
      rewrite !list_lookup_insert_ne by lia. auto 12.
    - apply step_done_frame; [lia|]. apply Hdone. lia. }
  split; [|split; [exact Hnext|split; [|split; [|split]]]].
  - rewrite next_unfold. unfold shaped.
    cbn [w_0 delta_w0 e_0 p r r_bar rho y].
    rewrite !length_insert. auto 10.
  - intros t' Hlt. rewrite hit_frame by lia. apply Hdone. lia.
  - rewrite np_all_eq_iff
      by (unfold max, one_max_max; rewrite length_replicate; exact Hy).
    unfold hit. rewrite next_unfold. fold y_t. cbn [y].
    rewrite list_lookup_insert_eq by lia.
    split; [now intros ->|congruence].
  - exists (w_col alpha delta w_t y_t). rewrite next_unfold. fold y_t.
    cbn [w_0]. rewrite list_lookup_insert_eq by lia.
    split; [reflexivity|]. rewrite w_col_length; lia.
  - intros t' Hle Hlt. rewrite next_unfold. cbn [r].
    rewrite list_lookup_insert_ne by lia. apply Hfresh; lia.
Qed.

(** The loop over [t, t+1, ..., t+k-1], all below [T - 1]. *)
Lemma for_break_seq (k : nat) :
  forall (t : nat) (s : state rng) (last : option nat),
    at_step_ t s -> (t + k < T)%nat ->
    exists (s' : state rng) (last' : option nat) (ex : loop_exit),
      for_break_ (seq t k) last s = inr (s', last', ex) /\
      shaped T s' /\
      match ex with
      | Broke =>
          exists tl, last' = Some tl /\ (t <= tl < t + k)%nat /\
            (forall t', (t' <= tl)%nat -> step_done_ s' t') /\
            (forall t', (t' < tl)%nat -> ~ hit n s' t') /\
            hit n s' tl
      | Exhausted =>
          last' = match k with O => last | S _ => Some (t + k - 1)%nat end /\
          (forall t', (t' < t + k)%nat -> step_done_ s' t' /\ ~ hit n s' t')
      end.
Proof.
  induction k as [|k IH]; intros t s last Hat Hk.
  - exists s, last, Exhausted. cbn [seq for_break ret].
    destruct Hat as (Hs & Hdone & _).
    split; [reflexivity|]. split; [exact Hs|]. split; [reflexivity|].
    intros t' Hlt. apply Hdone. lia.
  - destruct (body_at_step t s Hat) as
      (s1 & b & Hbody & Hs1 & Hdone1 & Hmiss1 & Hb & Hw1 & Hfresh1); [lia|].
    cbn [seq for_break]. rewrite Hbody. cbn [bind fst snd].
    destruct b.
    + exists s1, (Some t), Broke. split; [reflexivity|]. split; [exact Hs1|].
      exists t. split; [reflexivity|]. split; [lia|].
      split; [exact Hdone1|]. split; [exact Hmiss1|]. now apply Hb.
    + assert (Hat1 : at_step_ (S t) s1).
      { replace (S t) with (t + 1)%nat by lia.
        split; [exact Hs1|]. split; [|split; assumption].
        intros t' Hlt. split; [apply Hdone1; lia|].
        destruct (decide (t' = t)) as [->|Hne].
        - intros Hhit. apply Hb in Hhit. discriminate.
        - apply Hmiss1. lia. }
      destruct (IH (S t) s1 (Some t) Hat1) as (s' & last' & ex & Hrun & Hs' & Hex);
        [lia|].
      exists s', last', ex. split; [exact Hrun|]. split; [exact Hs'|].
      destruct ex.
      * destruct Hex as (tl & -> & Htl & Hex). exists tl.
        split; [reflexivity|]. split; [lia|exact Hex].
      * destruct Hex as (-> & Hex). split.
        -- destruct k; f_equal; lia.
        -- intros t' Hlt. apply Hex. lia.
Qed.

Lemma zeros_lookup (t : nat) : (t < T)%nat -> zeros T !! t = Some 0.
Proof. intros Ht. unfold zeros. now apply lookup_replicate_2. Qed.

(** The initialisation succeeds whenever there is a slot 0. *)
Lemma init_at_step (g : rng) :
  (0 < T)%nat -> exists s : state rng, init_ g = inr s /\ at_step_ 0 s.
Proof.
  intros HT. unfold init.
  pose proof (randn_length n g) as Hx.
  destruct (randn randn1 n g) as [x g']. cbn [fst] in Hx.
  rewrite set_in_range
    by (unfold zeros2; rewrite length_replicate; exact HT).
  cbn [bind].
  rewrite (get_lookup _ _ _ (zeros_lookup 0 HT)). cbn [bind].
  rewrite !set_in_range by (unfold zeros; rewrite length_replicate; exact HT).
  cbn [bind ret].
  eexists. split; [reflexivity|].
  unfold at_step, shaped. cbn [w_0 delta_w0 e_0 p r r_bar rho y].
  unfold zeros2, zeros. rewrite !length_insert, !length_replicate.
  split; [auto 10|]. split; [intros t' Hlt; lia|]. split.
  - exists x. split; [|exact Hx].
    apply list_lookup_insert_eq. now rewrite length_replicate.
  - intros t' _ Hlt. now apply lookup_replicate_2.
Qed.

(** The run as a whole, for a budget [T > 1]. *)
Lemma run_spec (g : rng) :
  (1 < T)%nat ->
  exists (s : state rng) (last : nat) (ex : loop_exit),
    run_ g = inr (s, Some last, ex) /\
    shaped T s /\
    (last + 1 <= T - 1)%nat /\
    (forall t, (t <= last)%nat -> step_done_ s t) /\
    (forall t, (t < last)%nat -> ~ hit n s t) /\
    (ex = Broke -> hit n s last) /\
    (ex = Exhausted -> (last + 1 = T - 1)%nat /\ ~ hit n s last).
Proof.
  intros HT. unfold run.
  destruct (init_at_step g) as (s0 & -> & Hat); [lia|]. cbn [bind].
  destruct (for_break_seq (T - 1) 0 s0 None Hat) as
    (s & last' & ex & -> & Hs & Hex); [lia|].
  destruct ex.
  - destruct Hex as (tl & -> & Htl & Hdone & Hmiss & Hhit).
    exists s, tl, Broke. split; [reflexivity|]. split; [exact Hs|].
    split; [lia|]. split; [exact Hdone|]. split; [exact Hmiss|].
    split; [intros _; exact Hhit|discriminate].
  - destruct Hex as (-> & Hex).
    destruct (T - 1)%nat as [|k] eqn:Ek; [lia|].
    exists s, (0 + S k - 1)%nat, Exhausted.
    split; [reflexivity|]. split; [exact Hs|]. split; [lia|].
    split; [intros t Ht; apply Hex; lia|].
    split; [intros t Ht; apply Hex; lia|].
    split; [discriminate|]. intros _. split; [lia|]. apply Hex. lia.
Qed.

Lemma lookup_map {A B} (f : A -> B) (l : list A) (i : nat) (x : A) :
  l !! i = Some x -> map f l !! i = Some (f x).
Proof.
  revert i. induction l as [|a l IH]; intros [|i] H; try discriminate H.
  - now injection H as ->.
  - simpl. now apply IH.
Qed.

(** The entries of the columns of a finished step. *)
Lemma step_done_entries (s : state rng) (t i : nat) :
  step_done_ s t -> (i < n)%nat ->
  exists (y_t : list Z) (w_ti : R) (y_ti : Z),
    y s !! t = Some y_t /\
    r s !! t = Some (IZR (one_max y_t)) /\
    entry (w_0 s) i t = Some w_ti /\
    entry (y s) i t = Some y_ti /\
    entry (p s) i t = Some (sigmoid w_ti) /\
    entry (w_0 s) i (t + 1) =
      Some (w_ti + (alpha * IZR (one_max y_t) * (IZR y_ti - sigmoid w_ti)
                    - delta * w_ti)).
Proof.
  intros (w_t & y_t & rb & Hw & Hy & Ew & Ep & Ey & _ & Er & _ & _ & _ & _ & Ew1) Hi.
  destruct (lookup_lt_is_Some_2 w_t i) as [w_ti Ewi]; [lia|].
  destruct (lookup_lt_is_Some_2 y_t i) as [y_ti Eyi]; [lia|].
  exists y_t, w_ti, y_ti. unfold entry. rewrite Ew, Ey, Ep, Ew1.
  split; [reflexivity|]. split; [exact Er|].
  split; [exact Ewi|]. split; [exact Eyi|].
  pose proof (lookup_map sigmoid w_t i w_ti Ewi) as Epi.
  split; [exact Epi|].
  unfold w_col, d_col, e_col, p_col, r_val.
  rewrite !lookup_zip_with, Ewi, Eyi, Epi. reflexivity.
Qed.

(** C4.  In a run with budget [T > 1], for every step [t] that was
    executed, [r[t]] is the reward of the sample of step [t] and
    [r_bar[t+1] = gamma * r_bar[t] + (1 - gamma) * r[t]]. *)
Theorem baseline_recurrence (g : rng) :
  (1 < T)%nat ->
  exists (s : state rng) (last : nat) (ex : loop_exit),
    run_ g = inr (s, Some last, ex) /\
    forall t, (t <= last)%nat ->
      exists (y_t : list Z) (r_t rb rb' : R),
        y s !! t = Some y_t /\ r_t = IZR (one_max y_t) /\
        r s !! t = Some r_t /\
        r_bar s !! t = Some rb /\
        r_bar s !! (t + 1)%nat = Some rb' /\
        rb' = gamma * rb + (1 - gamma) * r_t.
Proof.
  intros HT.
  destruct (run_spec g HT) as (s & last & ex & Hrun & _ & _ & Hdone & _).
  exists s, last, ex. split; [exact Hrun|]. intros t Ht.
  destruct (Hdone t Ht) as
    (w_t & y_t & rb & _ & _ & _ & _ & Ey & _ & Er & Eb & Eb1 & _).
  exists y_t, (IZR (one_max y_t)), rb, (gamma * rb + (1 - gamma) * IZR (one_max y_t)).
  auto 10.
Qed.

(** C7.  A run with budget [T > 1] returns, after at most [T - 1] turns
    of the loop ([last + 1] of them).  It ends by exhaustion if and only
    if no executed step sampled the optimum, and then all [T - 1] turns
    were made; otherwise it breaks at the first step whose sample is the
    optimum. *)
Theorem loop_stops_within_budget (g : rng) :
  (1 < T)%nat ->
  exists (s : state rng) (last : nat) (ex : loop_exit),
    run_ g = inr (s, Some last, ex) /\
    (last + 1 <= T - 1)%nat /\
    (ex = Exhausted <->
     forall t, (t <= last)%nat -> y s !! t <> Some (max n)) /\
    (ex = Exhausted -> (last + 1 = T - 1)%nat) /\
    (ex = Broke ->
     y s !! last = Some (max n) /\
     forall t, (t < last)%nat -> y s !! t <> Some (max n)).
Proof.
  intros HT.
  destruct (run_spec g HT) as
    (s & last & ex & Hrun & _ & Hle & _ & Hmiss & Hbroke & Hexh).
  exists s, last, ex. split; [exact Hrun|]. split; [exact Hle|].
  split; [|split].
  - split.
    + intros Hex t Ht. destruct (decide (t = last)) as [->|Hne].
      * apply Hexh, Hex.
      * apply Hmiss. lia.
    + intros Hall. destruct ex; [|reflexivity].
      exfalso. apply (Hall last); [lia|]. now apply Hbroke.
  - intros Hex. now apply Hexh.
  - intros Hex. split; [now apply Hbroke|exact Hmiss].
Qed.

Lemma shaped_with_rho (x : list R) (s : state rng) :
  shaped T s -> length x = T -> shaped T (with_rho x s).
Proof.
  unfold shaped, with_rho. cbn [w_0 delta_w0 e_0 p r r_bar rho y].
  intros H Hx. tauto.
Qed.

(** The body on a state with another [rho] array: the same effect on
    everything else, and the same value written to [rho[t+1]]. *)
Lemma body_with_rho (t : nat) (s : state rng) (x : list R) :
  shaped T s -> length x = T -> (t + 1 < T)%nat ->
  exists (s1 : state rng) (b : bool) (rb r1 : R),
    body_ t s = inr (s1, b) /\
    shaped T s1 /\
    r_bar s1 !! t = Some rb /\
    r s1 !! (t + 1)%nat = Some r1 /\
    rho s1 !! (t + 1)%nat = Some (r1 - rb) /\
    body_ t (with_rho x s) =
      inr (with_rho (<[(t + 1)%nat := r1 - rb]> x) s1, b).
Proof.
  intros Hs Hx Ht.
  destruct (body_next t s Hs Ht) as (w_t & rb & r1 & Ew & Eb & Er & Hbody).
  destruct (body_next t (with_rho x s) (shaped_with_rho x s Hs Hx) Ht)
    as (w_t' & rb' & r1' & Ew' & Eb' & Er' & Hbody').
  cbn [with_rho w_0 r_bar r gen] in Ew', Eb', Er', Hbody'.
  rewrite Ew in Ew'. injection Ew' as <-.
  rewrite Eb in Eb'. injection Eb' as <-.
  rewrite Er in Er'. injection Er' as <-.
  eexists _, _, rb, r1. split; [exact Hbody|].
  destruct Hs as (Hw & Hdw & He & Hp & Hr & Hrb & Hrh & Hyy).
  rewrite Hbody'. rewrite !next_unfold.
  cbn [with_rho w_0 delta_w0 e_0 p r r_bar rho y gen].
  unfold shaped. cbn [w_0 delta_w0 e_0 p r r_bar rho y].
  rewrite !length_insert.
  rewrite list_lookup_insert_ne by lia.
  rewrite list_lookup_insert_ne by lia.
  rewrite list_lookup_insert_eq by lia.
  auto 12.
Qed.

(** The loop from a state with another [rho] array. *)
Lemma for_break_with_rho (ts : list nat) :
  forall (s : state rng) (x : list R) (last : option nat),
    shaped T s -> length x = T ->
    (forall t, In t ts -> (t + 1 < T)%nat) ->
    map_result forget_rho (for_break_ ts last (with_rho x s)) =
    map_result forget_rho (for_break_ ts last s).
Proof.
  induction ts as [|t ts IH]; intros s x last Hs Hx Hts.
  - reflexivity.
  - destruct (body_with_rho t s x Hs Hx) as
      (s1 & b & rb & r1 & Hbody & Hs1 & _ & _ & _ & Hbody');
      [apply Hts; now left|].
    cbn [for_break]. rewrite Hbody, Hbody'. cbn [bind fst snd].
    destruct b; [reflexivity|].
    apply IH; [exact Hs1|now rewrite length_insert|].
    intros t' Ht'. apply Hts. now right.
Qed.

(** X9.  The value that a finished step left in [rho[t+1]]: when the body
    reads [r[t+1]] that slot still holds its initial 0, so [rho[t+1]] ends
    as [- r_bar[t]] and carries nothing of the reward of step [t + 1]. *)
Lemma rho_is_minus_baseline (g : rng) :
  (1 < T)%nat ->
  exists (s : state rng) (last : nat) (ex : loop_exit),
    run_ g = inr (s, Some last, ex) /\
    forall t, (t <= last)%nat ->
      exists rb : R,
        r_bar s !! t = Some rb /\ rho s !! (t + 1)%nat = Some (0 - rb).
Proof.
  intros HT.
  destruct (run_spec g HT) as (s & last & ex & Hrun & _ & _ & Hdone & _).
  exists s, last, ex. split; [exact Hrun|]. intros t Ht.
  destruct (Hdone t Ht) as
    (w_t & y_t & rb & _ & _ & _ & _ & _ & _ & _ & Eb & _ & Erho & _).
  now exists rb.
Qed.

(** C3.  In a run with budget [T > 1]:
    - for every executed step [t] and unit [i],
      [w[t+1][i] = w[t][i] + alpha * r[t] * (y[t][i] - p[t][i])
                   - delta * w[t][i]],
      with [r[t]] the reward of the sample of step [t];
    - each turn of the body stores [r[t+1] - r_bar[t]] in [rho[t+1]];
    - the loop started with any other content of [rho] ends with the same
      arrays (but [rho]), the same [t] and the same exit: [rho] is never
      read by the update. *)
Theorem weight_update_uses_raw_reward (g : rng) :
  (1 < T)%nat ->
  exists (s : state rng) (last : nat) (ex : loop_exit),
    run_ g = inr (s, Some last, ex) /\
    (forall t i, (t <= last)%nat -> (i < n)%nat ->
       exists (y_t : list Z) (r_t w_ti p_ti : R) (y_ti : Z),
         y s !! t = Some y_t /\ r_t = IZR (one_max y_t) /\
         r s !! t = Some r_t /\
         entry (w_0 s) i t = Some w_ti /\
         entry (y s) i t = Some y_ti /\
         entry (p s) i t = Some p_ti /\
         entry (w_0 s) i (t + 1) =
           Some (w_ti + alpha * r_t * (IZR y_ti - p_ti) - delta * w_ti)) /\
    (forall (s0 : state rng) t, shaped T s0 -> (t + 1 < T)%nat ->
       exists (s1 : state rng) (b : bool) (rb r1 : R),
         body_ t s0 = inr (s1, b) /\
         r_bar s1 !! t = Some rb /\
         r s1 !! (t + 1)%nat = Some r1 /\
         rho s1 !! (t + 1)%nat = Some (r1 - rb)) /\
    (forall (s0 : state rng) (x : list R),
       init_ g = inr s0 -> length x = T ->
       map_result forget_rho
         (for_break_ (seq 0 (T - 1)) None (with_rho x s0)) =
       map_result forget_rho (run_ g)).
Proof.
  intros HT.
  destruct (run_spec g HT) as (s & last & ex & Hrun & _ & _ & Hdone & _).
  exists s, last, ex. split; [exact Hrun|]. split; [|split].
  - intros t i Ht Hi.
    destruct (step_done_entries s t i (Hdone t Ht) Hi) as
      (y_t & w_ti & y_ti & Ey & Er & Ew & Eyi & Ep & Ew1).
    exists y_t, (IZR (one_max y_t)), w_ti, (sigmoid w_ti), y_ti.
    rewrite Ew1. repeat (split; [first [assumption|reflexivity]|]).
    f_equal. ring.
  - intros s0 t Hs0 Ht.
    destruct (body_with_rho t s0 (rho s0) Hs0) as
      (s1 & b & rb & r1 & Hbody & _ & Eb & Er & Erho & _); [apply Hs0|exact Ht|].
    now exists s1, b, rb, r1.
  - intros s0 x Hinit Hx. unfold run. rewrite Hinit. cbn [bind].
    destruct (init_at_step g) as (s0' & Hinit' & Hs0 & _); [lia|].
    rewrite Hinit in Hinit'. injection Hinit' as <-.
    apply for_break_with_rho; [exact Hs0|exact Hx|].
    intros t Ht. apply in_seq in Ht. lia.
Qed.

End OptimizerFacts.

(** * Determinism *)

Section Determinism.
Local Open Scope R_scope.
Context {rng1 rng2 : Type}.
Variable randn1 : rng1 -> R * rng1.
Variable randn1' : rng2 -> R * rng2.
Variable bernoulli : rng1 -> R -> Z * rng1.
Variable bernoulli' : rng2 -> R -> Z * rng2.
Variables n T : nat.
Variables alpha delta gamma : R.

(** [corr] relates the states of two generators that yield the same draws
    from then on: the same generator started from the same seed, in
    particular. *)
Variable corr : rng1 -> rng2 -> Prop.
Hypothesis randn1_corr : forall g1 g2, corr g1 g2 ->
  fst (randn1 g1) = fst (randn1' g2) /\
  corr (snd (randn1 g1)) (snd (randn1' g2)).
Hypothesis bernoulli_corr : forall g1 g2 q, corr g1 g2 ->
  fst (bernoulli g1 q) = fst (bernoulli' g2 q) /\
  corr (snd (bernoulli g1 q)) (snd (bernoulli' g2 q)).

(** Two states with the same arrays and corresponding generators. *)
Let sim (s1 : state rng1) (s2 : state rng2) : Prop :=
  arrays s1 = arrays s2 /\ corr (gen s1) (gen s2).

Lemma randn_corr (k : nat) : forall g1 g2, corr g1 g2 ->
  fst (randn randn1 k g1) = fst (randn randn1' k g2) /\
  corr (snd (randn randn1 k g1)) (snd (randn randn1' k g2)).
Proof using randn1_corr.
  induction k as [|k IH]; intros g1 g2 Hg; [now split|].
  destruct (randn1_corr g1 g2 Hg) as [Hx Hg1]. simpl.
  destruct (randn1 g1) as [x g1'], (randn1' g2) as [x' g2'].
  simpl in Hx, Hg1. subst x'.
  destruct (IH g1' g2' Hg1) as [Hxs Hg2].
  destruct (randn randn1 k g1') as [xs g1''].
  destruct (randn randn1' k g2') as [xs' g2''].
  simpl in *. now subst xs'.
Qed.

Lemma binomial_corr (ps : list R) : forall g1 g2, corr g1 g2 ->
  fst (binomial bernoulli ps g1) = fst (binomial bernoulli' ps g2) /\
  corr (snd (binomial bernoulli ps g1)) (snd (binomial bernoulli' ps g2)).
Proof using bernoulli_corr.
  induction ps as [|q ps IH]; intros g1 g2 Hg; [now split|].
  destruct (bernoulli_corr g1 g2 q Hg) as [Hb Hg1]. simpl.
  destruct (bernoulli g1 q) as [b g1'], (bernoulli' g2 q) as [b' g2'].
  simpl in Hb, Hg1. subst b'.
  destruct (IH g1' g2' Hg1) as [Hbs Hg2].
  destruct (binomial bernoulli ps g1') as [bs g1''].
  destruct (binomial bernoulli' ps g2') as [bs' g2''].
  simpl in *. now subst bs'.
Qed.

(** Peel one array access that both sides perform alike. *)
Ltac same_access :=
  match goal with
  | |- rel_result _ (bind ?m _) (bind ?m _) =>
      destruct m; [reflexivity|]; cbn [bind]
  end.

Lemma init_corr (a : rng1) (b : rng2) :
  corr a b -> rel_result sim (init randn1 n T a) (init randn1' n T b).
Proof using randn1_corr.
  intros Hg. unfold init.
  destruct (randn_corr n a b Hg) as [Hx Hg'].
  destruct (randn randn1 n a) as [x a'], (randn randn1' n b) as [x' b'].
  simpl in Hx, Hg'. subst x'.
  repeat same_access.
  cbn [ret rel_result]. now split.
Qed.

Lemma body_corr (t : nat) (s1 : state rng1) (s2 : state rng2) :
  sim s1 s2 ->
  rel_result (fun sb1 sb2 => sim (fst sb1) (fst sb2) /\ snd sb1 = snd sb2)
    (body bernoulli n alpha delta gamma t s1)
    (body bernoulli' n alpha delta gamma t s2).
Proof using bernoulli_corr.
  intros [Ha Hg].
  destruct s1 as [w dw e pp rr rb rh yy g1].
  destruct s2 as [w' dw' e' pp' rr' rb' rh' yy' g2].
  unfold arrays in Ha. cbn [w_0 delta_w0 e_0 p r r_bar rho y gen] in *.
  injection Ha as <- <- <- <- <- <- <- <-.
  unfold body.
  do 3 same_access.
  match goal with
  | |- context [binomial bernoulli ?ps g1] =>
      destruct (binomial_corr ps g1 g2 Hg) as [Hb Hg'];
      destruct (binomial bernoulli ps g1) as [b g1'];
      destruct (binomial bernoulli' ps g2) as [b' g2']
  end.
  simpl in Hb, Hg'. subst b'.
  repeat same_access.
  cbn [ret rel_result fst snd]. now repeat split.
Qed.

Lemma for_break_corr (ts : list nat) :
  forall (last : option nat) (s1 : state rng1) (s2 : state rng2),
    sim s1 s2 ->
    rel_result same_outcome
      (for_break bernoulli n alpha delta gamma ts last s1)
      (for_break bernoulli' n alpha delta gamma ts last s2).
Proof using bernoulli_corr.
  induction ts as [|t ts IH]; intros last s1 s2 Hsim.
  - cbn [for_break ret rel_result]. unfold same_outcome. cbn [fst snd].
    destruct Hsim as [Ha _]. now repeat split.
  - cbn [for_break].
    pose proof (body_corr t s1 s2 Hsim) as Hbody.
    destruct (body bernoulli n alpha delta gamma t s1) as [e1|[s1' b1]],
             (body bernoulli' n alpha delta gamma t s2) as [e2|[s2' b2]];
      cbn [rel_result bind fst snd] in *; try contradiction; [exact Hbody|].
    destruct Hbody as [Hsim' <-].
    destruct b1.
    + cbn [ret rel_result]. unfold same_outcome. cbn [fst snd].
      destruct Hsim' as [Ha _]. now repeat split.
    + now apply IH.
Qed.


End Determinism.

(** * The theorems at the run [Tape.example_run] *)

Section TapeRun.
Local Open Scope R_scope.

Lemma baseline_recurrence_witness :
  exists (s : state Tape.rng) (last : nat) (ex : loop_exit),
    Tape.example_run = inr (s, Some last, ex) /\
    exists r_t rb : R,
      r s !! 0%nat = Some r_t /\ r_bar s !! 0%nat = Some rb /\
      r_bar s !! 1%nat = Some (0.9 * rb + (1 - 0.9) * r_t).
Proof.
  destruct (baseline_recurrence Tape.randn1 Tape.bernoulli 2 3 0.01 0.0 0.9
              [1; 0; 1; 1]%Z) as (s & last & ex & Hrun & Hrec); [lia|].
  exists s, last, ex. split; [exact Hrun|].
  destruct (Hrec 0%nat) as (y_t & r_t & rb & rb' & _ & _ & Er & Eb & Eb' & ->);
    [lia|].
  now exists r_t, rb.
Defined.

Lemma loop_stops_within_budget_witness :
  exists (s : state Tape.rng) (last : nat) (ex : loop_exit),
    Tape.example_run = inr (s, Some last, ex) /\ (last + 1 <= 3 - 1)%nat.
Proof.
  destruct (loop_stops_within_budget Tape.randn1 Tape.bernoulli 2 3
              0.01 0.0 0.9 [1; 0; 1; 1]%Z)
    as (s & last & ex & Hrun & Hle & _); [lia|].
  now exists s, last, ex.
Defined.

Lemma weight_update_uses_raw_reward_witness :
  exists (s : state Tape.rng) (last : nat) (ex : loop_exit),
    Tape.example_run = inr (s, Some last, ex) /\
    exists (r_t w_ti p_ti : R) (y_ti : Z),
      r s !! 0%nat = Some r_t /\
      entry (w_0 s) 1 0 = Some w_ti /\
      entry (y s) 1 0 = Some y_ti /\
      entry (p s) 1 0 = Some p_ti /\
      entry (w_0 s) 1 1 =
        Some (w_ti + 0.01 * r_t * (IZR y_ti - p_ti) - 0.0 * w_ti).
Proof.
  destruct (weight_update_uses_raw_reward Tape.randn1 Tape.bernoulli 2 3
              0.01 0.0 0.9 [1; 0; 1; 1]%Z)
    as (s & last & ex & Hrun & Hupd & _); [lia|].
  exists s, last, ex. split; [exact Hrun|].
  destruct (Hupd 0%nat 1%nat) as
    (y_t & r_t & w_ti & p_ti & y_ti & _ & _ & Er & Ew & Ey & Ep & Ew1);
    [lia|lia|].
  now exists r_t, w_ti, p_ti, y_ti.
Defined.



(** The example run itself: it breaks at step 1, on the second sample. *)
Example example_run_breaks :
  map_result (fun res => (y (fst (fst res)), snd (fst res), snd res))
             Tape.example_run
  = inr ([[1; 0]; [1; 1]; [0; 0]]%Z, Some 1%nat, Broke).
Proof. lazy. reflexivity. Qed.

End TapeRun.


(** * Further properties of the objective functions *)

Section OneMaxFacts.
Local Open Scope Z_scope.

Lemma bits_all_ones (u : list Z) :
  is_bits u = true -> Py.sum u = Py.len u -> u = replicate (length u) 1.
Proof.
  induction u as [|x u IH]; intros Hb Hs; [reflexivity|].
  apply is_bits_cons in Hb as [Hx Hu].
  pose proof (sum_bits_bounds u Hu) as Hbd.
  rewrite sum_cons, len_cons in Hs.
  assert (x = 1) as -> by lia.
  simpl. f_equal. apply IH; [exact Hu|lia].
Qed.

Lemma bits_all_zeros (u : list Z) :
  is_bits u = true -> Py.sum u = 0 -> u = replicate (length u) 0.
Proof.
  induction u as [|x u IH]; intros Hb Hs; [reflexivity|].
  apply is_bits_cons in Hb as [Hx Hu].
  pose proof (sum_bits_bounds u Hu) as Hbd.
  rewrite sum_cons in Hs.
  assert (x = 0) as -> by lia.
  simpl. f_equal. apply IH; [exact Hu|lia].
Qed.

(** X1.  On bit vectors of length [n], [one_max] ranges over [0 .. 10n]; it
    is [10n] at the all-ones vector only (the known maximum used by the
    loop) and 0 at the all-zeros vector only. *)
Theorem one_max_unique_optimum (n : nat) (u : list Z) :
  is_bits u = true -> length u = n ->
  0 <= one_max u <= 10 * Z.of_nat n /\
  (one_max u = 10 * Z.of_nat n <-> u = replicate n 1) /\
  (one_max u = 0 <-> u = replicate n 0).
Proof.
  intros Hb Hn.
  pose proof (sum_bits_bounds u Hb) as Hs.
  assert (Hl : Py.len u = Z.of_nat n) by (unfold Py.len; now rewrite Hn).
  rewrite Hl in Hs. unfold one_max. split; [lia|]. split; split.
  - intros H. rewrite <- Hn. apply bits_all_ones; [exact Hb|lia].
  - intros ->. rewrite sum_replicate. lia.
  - intros H. rewrite <- Hn. apply bits_all_zeros; [exact Hb|lia].
  - intros ->. rewrite sum_replicate. lia.
Qed.

Lemma one_max_unique_optimum_witness :
  0 <= one_max [1; 0; 1] <= 10 * Z.of_nat 3 /\
  (one_max [1; 0; 1] = 10 * Z.of_nat 3 <-> [1; 0; 1] = replicate 3 1) /\
  (one_max [1; 0; 1] = 0 <-> [1; 0; 1] = replicate 3 0).
Proof. apply (one_max_unique_optimum 3 [1; 0; 1]); reflexivity. Defined.

End OneMaxFacts.

Section PorcupineFacts.
Local Open Scope Z_scope.

Lemma sum_insert (u : list Z) (i : nat) (a b : Z) :
  u !! i = Some a -> Py.sum (<[i := b]> u) = Py.sum u - a + b.
Proof.
  revert i. induction u as [|x u IH]; intros [|i] H; try discriminate H.
  - injection H as ->. change (<[0%nat := b]> (a :: u)) with (b :: u).
    rewrite !sum_cons. lia.
  - change (<[S i := b]> (x :: u)) with (x :: <[i := b]> u).
    rewrite !sum_cons, (IH i H). lia.
Qed.

(** X2.  On bit vectors of length [n], [porcupine] is at most [10n],
    reaches [10n] at the all-ones vector only, and scores
    [10(n-1) - 15] on every vector with exactly one zero. *)
Theorem porcupine_optimum (n : nat) (u : list Z) :
  is_bits u = true -> length u = n ->
  porcupine u <= 10 * Z.of_nat n /\
  (porcupine u = 10 * Z.of_nat n <-> u = replicate n 1) /\
  (Py.sum u = Z.of_nat n - 1 -> porcupine u = 10 * (Z.of_nat n - 1) - 15).
Proof.
  intros Hb Hn.
  pose proof (sum_bits_bounds u Hb) as Hs.
  assert (Hl : Py.len u = Z.of_nat n) by (unfold Py.len; now rewrite Hn).
  rewrite Hl in Hs. unfold porcupine. cbv zeta. rewrite Hl.
  pose proof (Z.mod_pos_bound (Z.of_nat n - Py.sum u) 2 eq_refl) as Hm.
  split; [lia|]. split; [split|].
  - intros H. rewrite <- Hn. apply bits_all_ones; [exact Hb|lia].
  - intros ->. rewrite sum_replicate.
    replace (Z.of_nat n - Z.of_nat n * 1) with 0 by lia.
    change (0 mod 2) with 0. lia.
  - intros ->.
    replace (Z.of_nat n - (Z.of_nat n - 1)) with 1 by lia.
    change (1 mod 2) with 1. lia.
Qed.

Lemma porcupine_optimum_witness :
  porcupine [1; 1; 0; 1] <= 10 * Z.of_nat 4 /\
  (porcupine [1; 1; 0; 1] = 10 * Z.of_nat 4 <-> [1; 1; 0; 1] = replicate 4 1) /\
  (Py.sum [1; 1; 0; 1] = Z.of_nat 4 - 1 ->
   porcupine [1; 1; 0; 1] = 10 * (Z.of_nat 4 - 1) - 15).
Proof. apply (porcupine_optimum 4 [1; 1; 0; 1]); reflexivity. Defined.

(** X3.  Setting one zero entry of [u] to 1 raises [porcupine] by 25 when
    the number of zeros [len(u) - sum(u)] was odd and lowers it by 5 when it
    was even: from an even number of zeros every single step towards the
    all-ones vector loses score. *)
Theorem porcupine_single_bit_step (u : list Z) (i : nat) :
  u !! i = Some 0 ->
  porcupine (<[i := 1]> u) =
    if Z.odd (Py.len u - Py.sum u) then porcupine u + 25 else porcupine u - 5.
Proof.
  intros Hi. unfold porcupine. cbv zeta.
  rewrite (sum_insert u i 0 1 Hi).
  assert (Hl : Py.len (<[i := 1]> u) = Py.len u)
    by (unfold Py.len; now rewrite length_insert).
  rewrite Hl.
  set (n_0 := Py.len u - Py.sum u).
  replace (Py.len u - (Py.sum u - 0 + 1)) with (n_0 - 1) by (unfold n_0; lia).
  rewrite (Zmod_odd n_0), (Zmod_odd (n_0 - 1)).
  rewrite Z.odd_sub. change (Z.odd 1) with true.
  destruct (Z.odd n_0); simpl; lia.
Qed.

Lemma porcupine_single_bit_step_witness :
  porcupine (<[1%nat := 1]> [1; 0; 0; 1]) = porcupine [1; 0; 0; 1] - 5 /\
  porcupine (<[1%nat := 1]> [1; 0; 1; 1]) = porcupine [1; 0; 1; 1] + 25.
Proof.
  split.
  - apply (porcupine_single_bit_step [1; 0; 0; 1] 1). reflexivity.
  - apply (porcupine_single_bit_step [1; 0; 1; 1] 1). reflexivity.
Defined.

End PorcupineFacts.


(** * Further properties of Plateaus *)

Section PlateausMore.
Local Open Scope Z_scope.

Lemma for_each_ext {S A} (f g : S -> A -> result S) (xs : list A) (s : S) :
  (forall s' x, In x xs -> f s' x = g s' x) ->
  for_each f xs s = for_each g xs s.
Proof.
  revert s. induction xs as [|x xs IH]; intros s H; [reflexivity|].
  cbn [for_each]. rewrite (H s x) by now left.
  destruct (g s x) as [e|s1]; [reflexivity|]. cbn [bind].
  apply IH. intros s' x' Hx'. apply H. now right.
Qed.

Lemma nth_error_insert_ne {A} (u : list A) (j k : nat) (b : A) :
  j <> k -> nth_error (<[j := b]> u) k = nth_error u k.
Proof.
  revert j k. induction u as [|x u IH]; intros [|j] [|k] H;
    try reflexivity; try congruence.
  simpl. apply IH. congruence.
Qed.

Lemma getitem_insert_ne (u : list Z) (j : nat) (b i : Z) :
  0 <= i -> i <> Z.of_nat j ->
  Py.getitem (<[j := b]> u) i = Py.getitem u i.
Proof.
  intros Hi Hne. unfold Py.getitem.
  destruct (Z.ltb_spec i 0) as [?|_]; [lia|].
  destruct (Z.ltb_spec i 0) as [?|_]; [lia|].
  rewrite nth_error_insert_ne by lia. reflexivity.
Qed.

(** X4.  The inner range starts one past the first index of a quartile, so
    the entries at [0], [n/4], [2n/4] and [3n/4] are never read: whatever
    is stored there, [plateaus] gives the same result. *)
Theorem plateaus_ignores_quartile_heads (u : list Z) (m k b : Z) :
  Py.len u = 4 * m -> 0 <= k <= 3 ->
  plateaus (<[Z.to_nat (k * m) := b]> u) = plateaus u.
Proof.
  intros Hn Hk. unfold plateaus.
  assert (Hl : Py.len (<[Z.to_nat (k * m) := b]> u) = Py.len u)
    by (unfold Py.len; now rewrite length_insert).
  rewrite Hl. destruct (assert _ _) as [e|[]]; [reflexivity|]. cbn [bind].
  f_equal. apply for_each_ext. intros [J J_k] k' Hk'.
  apply range_bounds in Hk'. unfold plateaus_outer. f_equal.
  apply for_each_ext. intros v i Hi.
  rewrite Hn, plateaus_range_quartile in Hi. apply range_bounds in Hi.
  assert (Hm : 0 <= m) by (unfold Py.len in Hn; lia).
  assert (Hkk : (k = 0 \/ k = 1 \/ k = 2 \/ k = 3) /\
                (k' = 0 \/ k' = 1 \/ k' = 2 \/ k' = 3)) by lia.
  unfold plateaus_inner. rewrite getitem_insert_ne; [reflexivity| |].
  - destruct Hkk as [_ [-> | [-> | [-> | ->]]]]; lia.
  - rewrite Z2Nat.id by lia.
    destruct Hkk as [[-> | [-> | [-> | ->]]] [-> | [-> | [-> | ->]]]]; lia.
Qed.

Lemma plateaus_ignores_quartile_heads_witness :
  plateaus (<[Z.to_nat (2 * 2) := 0]> [1; 1; 1; 1; 1; 1; 1; 1])
  = plateaus [1; 1; 1; 1; 1; 1; 1; 1].
Proof.
  apply (plateaus_ignores_quartile_heads [1; 1; 1; 1; 1; 1; 1; 1] 2 2 0).
  - reflexivity.
  - lia.
Defined.

End PlateausMore.


(** * Further properties of the optimiser loop *)

Section OptimizerMore.
Local Open Scope R_scope.
Context {rng : Type}.
Variable randn1 : rng -> R * rng.
Variable bernoulli : rng -> R -> Z * rng.
Variables n T : nat.
Variables alpha delta gamma : R.

Local Abbreviation body_ := (body bernoulli n alpha delta gamma).
Local Abbreviation next_ := (next bernoulli alpha delta gamma).
Local Abbreviation step_done_ := (step_done n alpha delta gamma).
Local Abbreviation at_step_ := (at_step n T alpha delta gamma).
Local Abbreviation for_break_ := (for_break bernoulli n alpha delta gamma).
Local Abbreviation run_ := (run randn1 bernoulli n T alpha delta gamma).
Local Abbreviation init_ := (init randn1 n T).

(** The body from a state in which step [t] is due, in terms of [next]. *)
Lemma body_at_step_next (t : nat) (s : state rng) :
  at_step_ t s -> (t + 1 < T)%nat ->
  exists (w_t : list R) (rb : R) (b : bool),
    w_0 s !! t = Some w_t /\ length w_t = n /\ r_bar s !! t = Some rb /\
    body_ t s = inr (next_ t s w_t rb 0, b) /\
    (b = false -> at_step_ (S t) (next_ t s w_t rb 0)).
Proof.
  intros Hat Ht.
  destruct (body_at_step bernoulli n T alpha delta gamma t s Hat Ht) as
    (s1 & b & Hbody & Hs1 & Hdone1 & Hmiss1 & Hb & Hw1 & Hfresh1).
  destruct Hat as (Hs & Hdone & (w_t & Ew & Hn) & Hfresh).
  destruct (body_next bernoulli n T alpha delta gamma t s Hs Ht)
    as (w' & rb & r1 & Ew' & Eb & Er & Hbody').
  rewrite Ew in Ew'. injection Ew' as <-.
  rewrite Hfresh in Er by lia. injection Er as <-.
  rewrite Hbody in Hbody'. injection Hbody' as -> Eb'.
  exists w_t, rb, b. do 4 (split; [assumption|]).
  intros ->. replace (S t) with (t + 1)%nat by lia.
  split; [exact Hs1|]. split; [|split; assumption].
  intros t' Hlt. split; [apply Hdone1; lia|].
  destruct (decide (t' = t)) as [->|Hne].
  - intros Hhit. apply Hb in Hhit. discriminate.
  - apply Hmiss1. lia.
Qed.

(** An induction principle for the loop: a property of the state that
    holds when step [t] is due and that every step carries from [t] to
    [t + 1] holds, at the number of steps made, when the loop is left. *)
Lemma for_break_invariant (I : nat -> state rng -> Prop) :
  (forall t s w_t rb,
     at_step_ t s -> I t s -> (t + 1 < T)%nat ->
     w_0 s !! t = Some w_t -> length w_t = n -> r_bar s !! t = Some rb ->
     I (S t) (next_ t s w_t rb 0)) ->
  forall (k t : nat) (s : state rng) (last : option nat),
    at_step_ t s -> I t s -> (t + k < T)%nat ->
    exists (s' : state rng) (last' : option nat) (ex : loop_exit) (t' : nat),
      for_break_ (seq t k) last s = inr (s', last', ex) /\
      I t' s' /\
      (ex = Broke -> last' = Some (t' - 1)%nat /\ (t < t')%nat) /\
      (ex = Exhausted -> t' = (t + k)%nat).
Proof.
  intros Hstep. induction k as [|k IH]; intros t s last Hat HI Hk.
  - exists s, last, Exhausted, t. split; [reflexivity|]. split; [exact HI|].
    split; [discriminate|]. intros _. lia.
  - destruct (body_at_step_next t s Hat) as
      (w_t & rb & b & Ew & Hn & Eb & Hbody & Hnext); [lia|].
    assert (HI1 : I (S t) (next_ t s w_t rb 0)).
    { apply Hstep; try assumption. lia. }
    cbn [seq for_break]. rewrite Hbody. cbn [bind fst snd].
    destruct b.
    + exists (next_ t s w_t rb 0), (Some t), Broke, (S t).
      split; [reflexivity|]. split; [exact HI1|].
      split; [|discriminate]. intros _. split; [f_equal; lia|lia].
    + destruct (IH (S t) _ (Some t) (Hnext eq_refl) HI1) as
        (s' & last' & ex & t' & Hrun & HI' & Hbr & Hex); [lia|].
      exists s', last', ex, t'. split; [exact Hrun|]. split; [exact HI'|].
      split.
      * intros Hb. destruct (Hbr Hb) as [-> Hlt]. split; [reflexivity|lia].
      * intros He. rewrite (Hex He). lia.
Qed.

(** The same for a whole run with budget [T > 1]. *)
Lemma run_invariant (I : nat -> state rng -> Prop) (g : rng) :
  (1 < T)%nat ->
  (forall s0, init_ g = inr s0 -> I 0%nat s0) ->
  (forall t s w_t rb,
     at_step_ t s -> I t s -> (t + 1 < T)%nat ->
     w_0 s !! t = Some w_t -> length w_t = n -> r_bar s !! t = Some rb ->
     I (S t) (next_ t s w_t rb 0)) ->
  exists (s : state rng) (last : nat) (ex : loop_exit),
    run_ g = inr (s, Some last, ex) /\ I (S last) s /\
    shaped T s /\ (last + 1 <= T - 1)%nat /\
    (forall t, (t <= last)%nat -> step_done_ s t) /\
    (forall t, (t < last)%nat -> ~ hit n s t) /\
    (ex = Broke <-> hit n s last).
Proof.
  intros HT Hinit Hstep.
  destruct (run_spec randn1 bernoulli n T alpha delta gamma g HT) as
    (s & last & ex & Hrun & Hs & Hle & Hdone & Hmiss & Hbroke & Hexh).
  exists s, last, ex. split; [exact Hrun|].
  assert (HI : I (S last) s).
  { unfold run in Hrun.
    destruct (init_at_step randn1 n T alpha delta gamma g) as (s0 & E0 & Hat);
      [lia|].
    rewrite E0 in Hrun. cbn [bind] in Hrun.
    destruct (for_break_invariant I Hstep (T - 1) 0 s0 None Hat (Hinit s0 E0))
      as (s' & last' & ex' & t' & Hrun' & HI' & Hbr & Hex); [lia|].
    rewrite Hrun in Hrun'. injection Hrun' as <- <- <-.
    destruct ex.
    - destruct (Hbr eq_refl) as [E Hlt]. injection E as E.
      replace (S last) with t' by lia. exact HI'.
    - rewrite (Hex eq_refl) in HI'. destruct (Hexh eq_refl) as [E _].
      replace (S last) with (0 + (T - 1))%nat by lia. exact HI'. }
  split; [exact HI|]. split; [exact Hs|]. split; [exact Hle|].
  split; [exact Hdone|]. split; [exact Hmiss|].
  split; [exact Hbroke|]. intros Hhit. destruct ex; [reflexivity|].
  now destruct (Hexh eq_refl).
Qed.

(** The state that the initialisation returns. *)
Lemma init_state (g : rng) :
  (0 < T)%nat ->
  init_ g =
    inr (State (<[0%nat := fst (randn randn1 n g)]> (zeros2 0 n T))
               (zeros2 0 n T) (zeros2 0 n T) (zeros2 0 n T)
               (zeros T) (<[0%nat := 0]> (zeros T)) (<[0%nat := 0]> (zeros T))
               (zeros2 0%Z n T) (snd (randn randn1 n g))).
Proof.
  intros HT. unfold init.
  destruct (randn randn1 n g) as [x g'].
  rewrite set_in_range
    by (unfold zeros2; rewrite length_replicate; exact HT).
  cbn [bind].
  rewrite (get_lookup _ _ _ (zeros_lookup T 0 HT)). cbn [bind].
  rewrite !set_in_range by (unfold zeros; rewrite length_replicate; exact HT).
  reflexivity.
Qed.

(** X7.  The budget decides how the cell ends: with [T = 0] there is no
    slot 0 and the initialisation raises [IndexError]; with [T = 1] the
    loop body never runs, [t] stays unbound and the state is the initial
    one; with [T > 1] the cell returns with [t] bound. *)
Theorem run_by_budget (g : rng) :
  (T = 0%nat -> run_ g = inl IndexError) /\
  (T = 1%nat ->
   exists s0, init_ g = inr s0 /\ run_ g = inr (s0, None, Exhausted)) /\
  ((1 < T)%nat ->
   exists (s : state rng) (last : nat) (ex : loop_exit),
     run_ g = inr (s, Some last, ex)).
Proof.
  split; [|split].
  - intros HT. unfold run, init. rewrite HT.
    destruct (randn randn1 n g) as [x g']. reflexivity.
  - intros HT. unfold run. rewrite init_state by lia.
    eexists. split; [reflexivity|]. rewrite HT. reflexivity.
  - intros HT.
    destruct (run_spec randn1 bernoulli n T alpha delta gamma g HT) as
      (s & last & ex & Hrun & _).
    now exists s, last, ex.
Qed.

(** X8.  [r_bar[0] = r[0]] and [rho[0] = r[0]] run before any reward is
    computed, so the baseline starts from 0 and not from the first reward:
    after the run [r_bar[0] = rho[0] = 0] and
    [r_bar[1] = (1 - gamma) * r[0]]. *)
Theorem baseline_starts_at_zero (g : rng) :
  (1 < T)%nat ->
  exists (s : state rng) (last : nat) (ex : loop_exit),
    run_ g = inr (s, Some last, ex) /\
    r_bar s !! 0%nat = Some 0 /\ rho s !! 0%nat = Some 0 /\
    exists (y_0 : list Z),
      y s !! 0%nat = Some y_0 /\
      r s !! 0%nat = Some (IZR (one_max y_0)) /\
      r_bar s !! 1%nat = Some ((1 - gamma) * IZR (one_max y_0)).
Proof.
  intros HT.
  destruct (run_invariant
              (fun _ s => r_bar s !! 0%nat = Some 0 /\ rho s !! 0%nat = Some 0)
              g HT) as (s & last & ex & Hrun & [Hb Hr] & _ & _ & Hdone & _).
  - intros s0 Hinit. rewrite init_state in Hinit by lia.
    injection Hinit as <-. cbn [r_bar rho]. unfold zeros.
    rewrite list_lookup_insert_eq by (rewrite length_replicate; lia).
    now split.
  - intros t s w_t rb _ [Hb Hr] _ _ _ _. rewrite next_unfold.
    cbn [r_bar rho]. rewrite !list_lookup_insert_ne by lia. now split.
  - exists s, last, ex. split; [exact Hrun|]. split; [exact Hb|].
    split; [exact Hr|].
    destruct (Hdone 0%nat) as
      (w_t & y_t & rb & _ & _ & _ & _ & Ey & _ & Er & Eb & Eb1 & _); [lia|].
    exists y_t. split; [exact Ey|]. split; [exact Er|].
    rewrite Hb in Eb. injection Eb as <-.
    change (0 + 1)%nat with 1%nat in Eb1. rewrite Eb1. f_equal.
    unfold r_val. ring.
Qed.

(** X10.  A step writes slot [t] of [p], [y], [e_0], [r], [delta_w0] and
    slot [t + 1] of [w_0], [r_bar], [rho], and nothing else: when the loop
    is left after step [last], every later slot still holds the zeros of the
    initialisation. *)
Theorem later_slots_untouched (g : rng) :
  (1 < T)%nat ->
  exists (s : state rng) (last : nat) (ex : loop_exit),
    run_ g = inr (s, Some last, ex) /\
    forall t, (last < t)%nat -> (t < T)%nat ->
      (y s !! t = Some (replicate n 0%Z) /\
       p s !! t = Some (replicate n 0) /\
       e_0 s !! t = Some (replicate n 0) /\
       delta_w0 s !! t = Some (replicate n 0) /\
       r s !! t = Some 0) /\
      ((S last < t)%nat ->
       w_0 s !! t = Some (replicate n 0) /\
       r_bar s !! t = Some 0 /\ rho s !! t = Some 0).
Proof.
  intros HT.
  destruct (run_invariant
              (fun t0 s => forall t, (t0 <= t)%nat -> (t < T)%nat ->
                 (y s !! t = Some (replicate n 0%Z) /\
                  p s !! t = Some (replicate n 0) /\
                  e_0 s !! t = Some (replicate n 0) /\
                  delta_w0 s !! t = Some (replicate n 0) /\
                  r s !! t = Some 0) /\
                 ((t0 < t)%nat ->
                  w_0 s !! t = Some (replicate n 0) /\
                  r_bar s !! t = Some 0 /\ rho s !! t = Some 0))
              g HT) as (s & last & ex & Hrun & HI & _).
  - intros s0 Hinit t _ Ht. rewrite init_state in Hinit by lia.
    injection Hinit as <-. cbn [w_0 delta_w0 e_0 p r r_bar rho y].
    unfold zeros2, zeros. split.
    + rewrite !lookup_replicate_2 by lia. auto.
    + intros Hlt. rewrite !list_lookup_insert_ne by lia.
      rewrite !lookup_replicate_2 by lia. auto.
  - intros t0 s w_t rb _ HI _ _ _ _ t Hle Ht. rewrite next_unfold.
    cbn [w_0 delta_w0 e_0 p r r_bar rho y].
    destruct (HI t) as [H1 H2]; [lia|lia|]. split.
    + rewrite !list_lookup_insert_ne by lia. exact H1.
    + intros Hlt. rewrite !list_lookup_insert_ne by lia. apply H2. lia.
  - exists s, last, ex. split; [exact Hrun|].
    intros t Hlt Ht. apply HI; lia.
Qed.

(** X11.  Every array keeps its shape through the whole run: [T] slots
    each, and every column of the [(n, T)] arrays has [n] entries. *)
Theorem arrays_keep_shape (g : rng) :
  (1 < T)%nat ->
  exists (s : state rng) (last : nat) (ex : loop_exit),
    run_ g = inr (s, Some last, ex) /\ shaped T s /\
    Forall (fun c => length c = n) (w_0 s) /\
    Forall (fun c => length c = n) (delta_w0 s) /\
    Forall (fun c => length c = n) (e_0 s) /\
    Forall (fun c => length c = n) (p s) /\
    Forall (fun c => length c = n) (y s).
Proof.
  intros HT.
  destruct (run_invariant
              (fun _ s =>
                 Forall (fun c => length c = n) (w_0 s) /\
                 Forall (fun c => length c = n) (delta_w0 s) /\
                 Forall (fun c => length c = n) (e_0 s) /\
                 Forall (fun c => length c = n) (p s) /\
                 Forall (fun c => length c = n) (y s))
              g HT) as (s & last & ex & Hrun & HI & Hs & _).
  - intros s0 Hinit. rewrite init_state in Hinit by lia.
    injection Hinit as <-. cbn [w_0 delta_w0 e_0 p y]. unfold zeros2.
    repeat split;
      try (apply Forall_replicate; apply length_replicate).
    apply Forall_insert; [|apply randn_length].
    apply Forall_replicate, length_replicate.
  - intros t s w_t rb _ (Hw & Hd & He & Hp & Hy) _ _ Hn _.
    rewrite next_unfold. cbn [w_0 delta_w0 e_0 p y].
    pose proof (binomial_length bernoulli (p_col w_t) (gen s)) as Hyt.
    assert (Hpt : length (p_col w_t) = n)
      by (unfold p_col; now rewrite length_map).
    rewrite Hpt in Hyt.
    repeat split; apply Forall_insert; try assumption.
    + rewrite w_col_length; lia.
    + unfold d_col, e_col. rewrite !length_zip_with. lia.
    + unfold e_col. rewrite length_zip_with. lia.
  - exists s, last, ex. split; [exact Hrun|]. split; [exact Hs|]. exact HI.
Qed.

End OptimizerMore.


(** * The loop with a sampler that returns bits

    [np.random.binomial(1, p)] returns 0 or 1; the properties below assume
    as much of [bernoulli]. *)

Section BitSamples.
Local Open Scope R_scope.
Context {rng : Type}.
Variable randn1 : rng -> R * rng.
Variable bernoulli : rng -> R -> Z * rng.
Variables n T : nat.
Variables alpha delta gamma : R.

Hypothesis bernoulli_bit : forall g q,
  fst (bernoulli g q) = 0%Z \/ fst (bernoulli g q) = 1%Z.

Local Abbreviation run_ := (run randn1 bernoulli n T alpha delta gamma).
Local Abbreviation step_done_ := (step_done n alpha delta gamma).

Lemma is_bits_zeros (k : nat) : is_bits (replicate k 0%Z) = true.
Proof. induction k as [|k IH]; [reflexivity|exact IH]. Qed.

Lemma binomial_bits (ps : list R) (g : rng) :
  is_bits (fst (binomial bernoulli ps g)) = true.
Proof using bernoulli_bit.
  revert g. induction ps as [|q ps IH]; intros g; [reflexivity|].
  simpl. pose proof (bernoulli_bit g q) as Hb.
  destruct (bernoulli g q) as [b g1]. specialize (IH g1).
  destruct (binomial bernoulli ps g1) as [bs g2]. simpl in *.
  unfold is_bits in *. simpl. rewrite IH.
  destruct Hb as [-> | ->]; reflexivity.
Qed.

(** The facts about a run that the properties below start from: every
    stored sample is a vector of bits. *)
Lemma run_bit_samples (g : rng) :
  (1 < T)%nat ->
  exists (s : state rng) (last : nat) (ex : loop_exit),
    run_ g = inr (s, Some last, ex) /\
    Forall (fun c => is_bits c = true) (y s) /\
    (forall t, (t <= last)%nat -> step_done_ s t) /\
    (forall t, (t < last)%nat -> ~ hit n s t) /\
    (ex = Broke <-> hit n s last).
Proof using bernoulli_bit.
  intros HT.
  destruct (run_invariant randn1 bernoulli n T alpha delta gamma
              (fun _ s => Forall (fun c => is_bits c = true) (y s))
              g HT) as (s & last & ex & Hrun & HI & _ & _ & Hdone & Hmiss & Hex).
  - intros s0 Hinit. rewrite init_state in Hinit by lia.
    injection Hinit as <-. cbn [y]. unfold zeros2.
    apply Forall_replicate, is_bits_zeros.
  - intros t s w_t rb _ Hy _ _ _ _. rewrite next_unfold. cbn [y].
    apply Forall_insert; [exact Hy|apply binomial_bits].
  - now exists s, last, ex.
Qed.

Lemma reward_bounds (y_t : list Z) :
  is_bits y_t = true -> length y_t = n ->
  0 <= IZR (one_max y_t) <= IZR (10 * Z.of_nat n).
Proof.
  intros Hb Hn. pose proof (sum_bits_bounds y_t Hb) as Hs.
  unfold Py.len in Hs. rewrite Hn in Hs.
  split; apply IZR_le; unfold one_max; lia.
Qed.


(** X15.  Every reward recorded by the run lies in [[0, 10n]], and the
    maximal reward [10n] is recorded at step [t] exactly when [t] is the
    last step and the loop was left by [break]. *)
Theorem maximal_reward_only_at_break (g : rng) :
  (1 < T)%nat ->
  exists (s : state rng) (last : nat) (ex : loop_exit),
    run_ g = inr (s, Some last, ex) /\
    forall t, (t <= last)%nat ->
      exists r_t : R,
        r s !! t = Some r_t /\
        0 <= r_t <= IZR (10 * Z.of_nat n) /\
        (r_t = IZR (10 * Z.of_nat n) <-> t = last /\ ex = Broke).
Proof using bernoulli_bit.
  intros HT.
  destruct (run_bit_samples g HT) as
    (s & last & ex & Hrun & Hbits & Hdone & Hmiss & Hex).
  exists s, last, ex. split; [exact Hrun|]. intros t Ht.
  destruct (Hdone t Ht) as
    (w_t & y_t & rb & Hw & Hy & Ew & Ep & Ey & Ee & Er & _).
  assert (Hyb : is_bits y_t = true) by exact (Forall_lookup_1 _ _ _ _ Hbits Ey).
  exists (IZR (one_max y_t)). split; [exact Er|].
  split; [now apply reward_bounds|]. split.
  - intros E. apply eq_IZR in E.
    assert (Hones : y_t = max n).
    { unfold max, one_max_max. rewrite <- Hy.
      apply bits_all_ones; [exact Hyb|].
      unfold one_max in E. unfold Py.len. lia. }
    assert (Hhit : hit n s t) by (unfold hit; now rewrite Ey, Hones).
    destruct (decide (t = last)) as [->|Hne].
    + split; [reflexivity|]. now apply Hex.
    + exfalso. apply (Hmiss t); [lia|exact Hhit].
  - intros [-> Hb]. apply Hex in Hb. unfold hit in Hb.
    rewrite Ey in Hb. injection Hb as ->.
    f_equal. unfold one_max, max, one_max_max. rewrite sum_replicate. lia.
Qed.

End BitSamples.


(** * The further properties at the runs [Tape.example_run] and
    [Coin.example_run] *)

Section MoreRuns.
Local Open Scope R_scope.

Lemma coin_bit (g : Coin.rng) (q : R) :
  fst (Coin.bernoulli g q) = 0%Z \/ fst (Coin.bernoulli g q) = 1%Z.
Proof. destruct g as [|[] g]; simpl; auto. Qed.

Lemma run_by_budget_witness :
  run Tape.randn1 Tape.bernoulli 2 0 0.01 0.0 0.9 [1; 0]%Z = inl IndexError /\
  exists (s : state Tape.rng) (last : nat) (ex : loop_exit),
    Tape.example_run = inr (s, Some last, ex).
Proof.
  split.
  - apply (proj1 (run_by_budget Tape.randn1 Tape.bernoulli 2 0 0.01 0.0 0.9
                    [1; 0]%Z)).
    reflexivity.
  - apply (proj2 (proj2 (run_by_budget Tape.randn1 Tape.bernoulli 2 3
                           0.01 0.0 0.9 [1; 0; 1; 1]%Z))).
    lia.
Defined.

Lemma baseline_starts_at_zero_witness :
  exists (s : state Tape.rng) (last : nat) (ex : loop_exit),
    Tape.example_run = inr (s, Some last, ex) /\
    r_bar s !! 0%nat = Some 0 /\ rho s !! 0%nat = Some 0.
Proof.
  destruct (baseline_starts_at_zero Tape.randn1 Tape.bernoulli 2 3
              0.01 0.0 0.9 [1; 0; 1; 1]%Z)
    as (s & last & ex & Hrun & Hb & Hr & _); [lia|].
  now exists s, last, ex.
Defined.

Lemma rho_is_minus_baseline_witness :
  exists (s : state Tape.rng) (last : nat) (ex : loop_exit),
    Tape.example_run = inr (s, Some last, ex) /\
    exists rb : R,
      r_bar s !! 0%nat = Some rb /\ rho s !! 1%nat = Some (0 - rb).
Proof.
  destruct (rho_is_minus_baseline Tape.randn1 Tape.bernoulli 2 3
              0.01 0.0 0.9 [1; 0; 1; 1]%Z)
    as (s & last & ex & Hrun & Hrho); [lia|].
  exists s, last, ex. split; [exact Hrun|]. apply (Hrho 0%nat). lia.
Defined.

Lemma later_slots_untouched_witness :
  exists (s : state Coin.rng) (last : nat) (ex : loop_exit),
    Coin.example_run = inr (s, Some last, ex) /\
    forall t, (last < t)%nat -> (t < 4)%nat ->
      y s !! t = Some (replicate 2 0%Z) /\ r s !! t = Some 0.
Proof.
  destruct (later_slots_untouched Coin.randn1 Coin.bernoulli 2 4
              0.01 0.0 0.9 [true; false; false; true])
    as (s & last & ex & Hrun & Hlater); [lia|].
  exists s, last, ex. split; [exact Hrun|].
  intros t Hlt Ht. destruct (Hlater t Hlt Ht) as [(Hy & _ & _ & _ & Hr) _].
  now split.
Defined.

Lemma arrays_keep_shape_witness :
  exists (s : state Tape.rng) (last : nat) (ex : loop_exit),
    Tape.example_run = inr (s, Some last, ex) /\ shaped 3 s /\
    Forall (fun c => length c = 2%nat) (w_0 s) /\
    Forall (fun c => length c = 2%nat) (y s).
Proof.
  destruct (arrays_keep_shape Tape.randn1 Tape.bernoulli 2 3
              0.01 0.0 0.9 [1; 0; 1; 1]%Z)
    as (s & last & ex & Hrun & Hs & Hw & _ & _ & _ & Hy); [lia|].
  now exists s, last, ex.
Defined.


Lemma maximal_reward_only_at_break_witness :
  exists (s : state Coin.rng) (last : nat) (ex : loop_exit),
    Coin.example_run = inr (s, Some last, ex) /\
    exists r_t : R,
      r s !! 0%nat = Some r_t /\ 0 <= r_t <= IZR (10 * Z.of_nat 2).
Proof.
  destruct (maximal_reward_only_at_break Coin.randn1 Coin.bernoulli 2 4
              0.01 0.0 0.9 coin_bit [true; false; false; true])
    as (s & last & ex & Hrun & Hmax); [lia|].
  exists s, last, ex. split; [exact Hrun|].
  destruct (Hmax 0%nat) as (r_t & Er & Hr & _); [lia|].
  now exists r_t.
Defined.

(** The run [Coin.example_run] itself: no step samples the optimum and the
    loop ends by exhaustion after steps 0, 1 and 2. *)
Example coin_run_exhausts :
  map_result (fun res => (y (fst (fst res)), snd (fst res), snd res))
             Coin.example_run
  = inr ([[1; 0]; [0; 1]; [0; 0]; [0; 0]]%Z, Some 2%nat, Exhausted).
Proof. lazy. reflexivity. Qed.

End MoreRuns.
